(** * p2pool-tg-notifier: the block watcher and its notification fan-out

    A shallow embedding of [main.go]: the subscriber file reader
    ([getSubscribers]), the pool API client ([fetchLastBlock]) and the
    polling step ([tryNotifyIfNewBlock]) with the process-wide variable
    [lastBlockChecked].  Go's [(value, error)] results are pairs of a value
    and an [option error]; a [nil] slice is the empty list. *)

From Stdlib Require Import ZArith Lia Ascii String QArith Qround.
From Stdlib Require Import Floats.SpecFloat.
From stdpp Require Import base option strings list gmap.

Local Open Scope string_scope.
Local Open Scope Z_scope.
Local Set Warnings "-register-all".

(** ** Go error values *)

(** The two sentinel causes a [*strconv.NumError] wraps. *)
Inductive NumCause : Set :=
| ErrSyntax   (* strconv.ErrSyntax: "invalid syntax" *)
| ErrRange.   (* strconv.ErrRange: "value out of range" *)

(** The errno under a [*fs.PathError]; the two that matter here are named. *)
Inductive Errno : Set :=
| ENOENT                (* no such file or directory *)
| EACCES                (* permission denied *)
| EOther (code : Z).

(** The dynamic values of Go's [error] interface that reach this program. *)
Inductive error : Type :=
| errUnexpectedStructure                             (* main.go:28 *)
| PathError (op path : string) (errno : Errno)       (* *fs.PathError *)
| NumError (func num : string) (cause : NumCause)    (* *strconv.NumError *)
| ErrTooLong                                         (* bufio.ErrTooLong *)
| ErrInvalid                                         (* os.ErrInvalid *)
| UrlError (op url cause : string)                   (* *url.Error *)
| ReadError (msg : string)                           (* a failed Read *)
| SyntaxError (msg : string)                         (* *json.SyntaxError *)
| UnmarshalTypeError (value : string)                (* *json.UnmarshalTypeError *)
| SendError (msg : string).                          (* what bot.Send reports *)

(** [errors.As(err, &pErr)] with [pErr : *fs.PathError]. *)
Definition as_PathError (err : error) : bool :=
  match err with
  | PathError _ _ _ => true
  | _ => false
  end.

(** ** Machine integers *)

Definition maxUint64 : Z := 2 ^ 64 - 1.
Definition minInt64 : Z := - 2 ^ 63.
Definition maxInt64 : Z := 2 ^ 63 - 1.

(** Arithmetic on [uint64] wraps around. *)
Definition wrap64 (z : Z) : Z := z mod 2 ^ 64.

(** ** Package strconv *)

Module strconv.

Definition syntaxError (fn str : string) : error := NumError fn str ErrSyntax.
Definition rangeError (fn str : string) : error := NumError fn str ErrRange.

Definition byte_val (c : ascii) : Z := Z.of_N (N_of_ascii c).

Definition lower (c : Z) : Z := Z.lor c 32.

(** The digit a byte stands for, as the [switch] of ParseUint computes it
    with [base0 = false]: [None] is the [default] branch. *)
Definition digit_of (c : ascii) : option Z :=
  let b := byte_val c in
  if (48 <=? b) && (b <=? 57) then Some (b - 48)
  else if (97 <=? lower b) && (lower b <=? 122) then Some (lower b - 97 + 10)
  else None.

(** The [for _, c := range []byte(s)] loop of ParseUint, for base 10 and
    bitSize 64, from the accumulator [n]. *)
Fixpoint parseUint_loop (s0 : string) (n : Z) (s : string) : Z * option error :=
  match s with
  | EmptyString => (n, None)
  | String c rest =>
      match digit_of c with
      | None => (0, Some (syntaxError "ParseUint" s0))
      | Some d =>
          if 10 <=? d then (0, Some (syntaxError "ParseUint" s0))
          else
            let cutoff := maxUint64 / 10 + 1 in
            let maxVal := maxUint64 in
            if cutoff <=? n then (maxVal, Some (rangeError "ParseUint" s0))
            else
              let n10 := wrap64 (n * 10) in
              let n1 := wrap64 (n10 + d) in
              if (n1 <? n10) || (maxVal <? n1)
              then (maxVal, Some (rangeError "ParseUint" s0))
              else parseUint_loop s0 n1 rest
      end
  end.

(** [strconv.ParseUint(s, 10, 64)]. *)
Definition ParseUint (s : string) : Z * option error :=
  match s with
  | EmptyString => (0, Some (syntaxError "ParseUint" s))
  | _ => parseUint_loop s 0 s
  end.

(** [strconv.ParseInt(s, 10, 64)]. *)
Definition ParseInt (s : string) : Z * option error :=
  match s with
  | EmptyString => (0, Some (syntaxError "ParseInt" s))
  | String c0 tl =>
      let s0 := s in
      let '(neg, s) :=
        if Ascii.eqb c0 "+"%char then (false, tl)
        else if Ascii.eqb c0 "-"%char then (true, tl)
        else (false, s) in
      let '(un, err) := ParseUint s in
      match err with
      | Some (NumError _ _ ErrSyntax) => (0, Some (syntaxError "ParseInt" s0))
      | _ =>
          let cutoff := 2 ^ 63 in
          if negb neg && (cutoff <=? un)
          then (cutoff - 1, Some (rangeError "ParseInt" s0))
          else if neg && (cutoff <? un)
          then (- cutoff, Some (rangeError "ParseInt" s0))
          else (if neg then - un else un, None)
      end
  end.

End strconv.

(** ** Package strconv: FormatInt *)

Module itoa.

(** The byte of the decimal digit [d]. *)
Definition digitChar (d : Z) : ascii := ascii_of_N (Z.to_N (48 + d)).

(** The decimal digits of [u] put in front of [acc], the last digit first
    (the library writes two digits per step; the text is the same).  A
    uint64 has 20 digits at most, which is the fuel [FormatInt] gives. *)
Fixpoint formatBits (fuel : nat) (u : Z) (acc : string) : string :=
  match fuel with
  | O => acc
  | S fuel =>
      let acc := String (digitChar (u mod 10)) acc in
      if u / 10 =? 0 then acc else formatBits fuel (u / 10) acc
  end.

(** [strconv.FormatInt(i, 10)]. *)
Definition FormatInt (i : Z) : string :=
  if i <? 0 then String "-"%char (formatBits 20 (- i) EmptyString)
  else formatBits 20 i EmptyString.

End itoa.

(** ** The format of the subscriber file, in the words of its description

    "One line per subscriber, each line a decimal signed 64-bit integer":
    these definitions follow that sentence, not [strconv]; the two are
    compared in [ParseInt_decimalInt64]. *)

(** A decimal digit. *)
Definition isDigit (c : ascii) : bool :=
  (48 <=? strconv.byte_val c) && (strconv.byte_val c <=? 57).

(** The number that [acc] followed by a run of decimal digits writes;
    nothing when a byte of the run is no digit. *)
Fixpoint digitsValue (acc : Z) (s : string) : option Z :=
  match s with
  | EmptyString => Some acc
  | String c rest =>
      if isDigit c then digitsValue (10 * acc + (strconv.byte_val c - 48)) rest
      else None
  end.

(** A decimal signed 64-bit integer: an optional sign, then one decimal
    digit or more, writing a number from -2^63 to 2^63 - 1. *)
Definition decimalInt64 (s : string) : option Z :=
  match s with
  | EmptyString => None
  | String c0 tl =>
      let '(neg, digits) :=
        if Ascii.eqb c0 "+"%char then (false, tl)
        else if Ascii.eqb c0 "-"%char then (true, tl)
        else (false, s) in
      match digits with
      | EmptyString => None
      | _ =>
          match digitsValue 0 digits with
          | Some v =>
              let z := if neg then - v else v in
              if (minInt64 <=? z) && (z <=? maxInt64) then Some z else None
          | None => None
          end
      end
  end.

(** ** Package bufio: a Scanner with the ScanLines split function *)

Module bufio.

(** [bufio.MaxScanTokenSize]: the Scanner's buffer never grows beyond it. *)
Definition MaxScanTokenSize : Z := 64 * 1024.

(** [dropCR]: a single trailing carriage return is not part of the line. *)
Fixpoint dropCR (s : string) : string :=
  match s with
  | EmptyString => EmptyString
  | String c EmptyString => if Ascii.eqb c "013"%char then EmptyString else s
  | String c rest => String c (dropCR rest)
  end.

(** The data cut at every newline: the text up to the first newline, and
    the pieces after it.  The last piece is what follows the last
    newline (empty when the data ends in one). *)
Fixpoint cut (data : string) : string * list string :=
  match data with
  | EmptyString => (EmptyString, [])
  | String c rest =>
      let '(l, ls) := cut rest in
      if Ascii.eqb c "010"%char then (EmptyString, l :: ls) else (String c l, ls)
  end.

Definition pieces (data : string) : list string :=
  let '(l, ls) := cut data in l :: ls.

Definition tooLong (piece : string) : bool :=
  MaxScanTokenSize <=? Z.of_nat (String.length piece).

(** What successive [Scan] calls deliver over the pieces, and the error
    the scan stops on.  A piece that does not fit in the buffer with room
    for its newline stops the scan with [ErrTooLong]; the final piece is
    a token only when it is not empty ([ScanLines] at EOF). *)
Fixpoint scanPieces (ps : list string) : list string * option error :=
  match ps with
  | [] => ([], None)
  | p :: rest =>
      if tooLong p then ([], Some ErrTooLong)
      else
        match rest with
        | [] => (match p with EmptyString => [] | _ => [dropCR p] end, None)
        | _ => let '(toks, err) := scanPieces rest in (dropCR p :: toks, err)
        end
  end.

End bufio.

(** The lines of a text cut into pieces: every piece, but for an empty last
    one (a text that ends in a newline has no line after it). *)
Fixpoint textLines (ps : list string) : list string :=
  match ps with
  | [] => []
  | p :: rest =>
      match rest with
      | [] => match p with EmptyString => [] | _ => [p] end
      | _ => p :: textLines rest
      end
  end.

(** The lines of a file, each without its line terminator. *)
Definition fileLines (data : string) : list string :=
  bufio.dropCR <$> textLines (bufio.pieces data).

(** ** Package os: the subscriber file *)

Module os.

(** An open file as its reader sees it: the bytes it yields and, instead of
    a clean end of file, possibly a [Read] that fails (with this message). *)
Record File : Type := { contents : string; readErr : option string }.

(** What a path leads to. *)
Inductive Entry : Type :=
| Absent                      (* no such file *)
| Unopenable (errno : Errno)  (* there, but open(2) fails: EACCES, ... *)
| Present (f : File).

(** [os.Open(name)]: every failure is a [*fs.PathError]. *)
Definition Open (fsys : string -> Entry) (name : string) : option File * option error :=
  match fsys name with
  | Absent => (None, Some (PathError "open" name ENOENT))
  | Unopenable errno => (None, Some (PathError "open" name errno))
  | Present f => (Some f, None)
  end.

End os.

(** [bufio.NewScanner(file)] run to its end: the tokens [scanner.Text()]
    takes in turn while [scanner.Scan()] is true, then [scanner.Err()].
    Reading a nil [*os.File] fails at once with [os.ErrInvalid].  After a
    failed read the Scanner still hands out what it had buffered. *)
Definition scanFile (file : option os.File) : list string * option error :=
  match file with
  | None => ([], Some ErrInvalid)
  | Some f =>
      let '(toks, err) := bufio.scanPieces (bufio.pieces (os.contents f)) in
      (toks, match err with Some e => Some e | None => ReadError <$> os.readErr f end)
  end.

(** ** What the program does to the outside, in order *)

Definition Time : Type := Z.   (* an instant, in milliseconds since the Unix epoch *)

Module time.
Definition UnixMilli (msec : Z) : Time := msec.
(** [time.Time{}]: January 1, year 1, 00:00:00 UTC. *)
Definition zero : Time := -62135596800000.
End time.

(** main.go:31 *)
Record block : Type := { height : Z; ts : Time }.

(** [tgbotapi.NewMessage(id, fmt.Sprintf(..., height, ts.Format(time.RFC850)))]:
    the chat and the two values the text is made from. *)
Record MessageConfig : Type := { ChatID : Z; Height : Z; At : Time }.

Inductive event : Type :=
| Get (url : string)                               (* http.Get *)
| Assign (b : block)                               (* lastBlockChecked = b *)
| Open (path : string)                             (* os.Open *)
| Printf (line : string)                           (* log.Printf *)
| PrintfError (err : error)                        (* log.Printf("error: %s", err.Error()) *)
| Send (msg : MessageConfig) (res : option error)  (* bot.Send *)
| Sleep.                                           (* time.Sleep(interval) *)

(** ** getSubscribers (main.go:164) *)

(** The [for scanner.Scan()] loop, from the identifiers gathered so far. *)
Fixpoint parseTokens (ids : list Z) (toks : list string) : list Z * option error :=
  match toks with
  | [] => (ids, None)
  | t :: rest =>
      let '(id, err) := strconv.ParseInt t in
      match err with
      | Some e => ([], Some e)
      | None => parseTokens (ids ++ [id])%list rest
      end
  end.

Definition getSubscribers (fsys : string -> os.Entry) (subscribersFilePath : string)
  : list Z * option error * list event :=
  let '(file, err) := os.Open fsys subscribersFilePath in
  let skip :=
    match err with
    | Some e => as_PathError e
    | None => false
    end in
  if skip
  then ([], None, [Open subscribersFilePath; Printf "no subscribers yet, skip"])
  else
    let '(toks, scanErr) := scanFile file in
    match parseTokens [] toks with
    | (_, Some e) => ([], Some e, [Open subscribersFilePath])
    | (ids, None) =>
        match scanErr with
        | Some e => ([], Some e, [Open subscribersFilePath])
        | None => (ids, None, [Open subscribersFilePath])
        end
    end.

Definition oneFile (path : string) (e : os.Entry) : string -> os.Entry :=
  fun p => if String.eqb p path then e else os.Absent.

Definition textFile (data : string) : os.Entry :=
  os.Present {| os.contents := data; os.readErr := None |}.

(** ** float64 and its conversion to integers *)

(** An IEEE 754 binary64 datum, as the Standard Library spells one out. *)
Definition float64 : Type := spec_float.

(** The number with its fraction discarded (truncation towards zero);
    nothing for an infinity or a NaN. *)
Definition truncate (f : float64) : option Z :=
  match f with
  | S754_zero _ => Some 0
  | S754_finite s m e =>
      let mag := Z.shiftl (Z.pos m) e in
      Some (if s then - mag else mag)
  | S754_infinity _ | S754_nan => None
  end.

(** The conversions [int64(f)] and, [int] being 64 bits wide, [int(f)].  Go
    leaves the result open when the value does not fit; it is the smallest
    int64 on amd64, which is what is taken here. *)
Definition int64_of_float64 (f : float64) : Z :=
  match truncate f with
  | Some z => if (minInt64 <=? z) && (z <=? maxInt64) then z else minInt64
  | None => minInt64
  end.

Definition int_of_float64 (f : float64) : Z := int64_of_float64 f.

(** A float64 that is a number: zero, or finite with the mantissa and the
    exponent of a binary64 (53 bits, exponents up to 1024).  These are
    the values [strconv.ParseFloat(s, 64)] returns without error. *)
Definition isNumber (f : float64) : bool :=
  match f with
  | S754_zero _ => true
  | S754_finite _ m e => bounded 53 1024 m e
  | S754_infinity _ | S754_nan => false
  end.

Record number : Type := { float : float64; float_ok : isNumber float = true }.

(** The float64 nearest to an integer, ties to even: what ParseFloat
    returns for the decimal text of the integer (an infinity, and an error,
    when the integer is beyond the largest float64). *)
Definition float64_of_Z (z : Z) : float64 := binary_normalize 53 1024 z 0 false.

(** The rational a finite float64 stands for, (-1)^s * m * 2^e: what the
    conversions to integers are measured against. *)
Definition rational (f : float64) : option Q :=
  match f with
  | S754_zero _ => Some (0 # 1)
  | S754_finite s m e =>
      let sm := if s then Z.neg m else Z.pos m in
      Some match e with
           | Z0 => sm # 1
           | Z.pos p => (sm * 2 ^ Z.pos p) # 1
           | Z.neg p => sm # (2 ^ p)%positive
           end
  | S754_infinity _ | S754_nan => None
  end.

(** A rational without its fraction: rounded towards zero. *)
Definition Qtruncate (q : Q) : Z :=
  if 0 <=? Qnum q then Qfloor q else Qceiling q.

(** ** interface{} *)

(** What [encoding/json] stores into an [interface{}]: nil, a bool, a
    float64, a string, a []interface{} or a map[string]interface{}. *)
Inductive iface : Type :=
| INil
| IBool (b : bool)
| IFloat64 (n : number)
| IString (s : string)
| ISlice (elems : list iface)
| IMap (fields : gmap string iface).

(** ** Package encoding/json *)

Module json.

(** A JSON value as its text spells it.  A number literal is the float64
    ParseFloat makes of it or, when it is outside the range of float64, the
    literal itself ([Huge]); the members of an object come in the order of
    the text, a name possibly more than once. *)
Inductive value : Type :=
| Null
| Bool (b : bool)
| Number (n : number)
| Huge (lit : string)
| Str (s : string)
| Array (elems : list value)
| Object (members : list (string * value)).

(** The bytes of a body, read through JSON's grammar: they are not a JSON
    text, or they are the text of one value. *)
Inductive text : Type :=
| Malformed (msg : string)
| Text (v : value).

(** The [Value] field of the [UnmarshalTypeError] for a value that the Go
    type it is decoded into cannot take. *)
Definition describe (v : value) : string :=
  match v with
  | Null => "null"
  | Bool _ => "bool"
  | Number _ => "number"
  | Huge _ => "number"
  | Str _ => "string"
  | Array _ => "array"
  | Object _ => "object"
  end.

(** The first number literal of a value, in the order of its text, that is
    outside the range of float64. *)
Fixpoint huge (v : value) : option string :=
  match v with
  | Huge lit => Some lit
  | Array vs =>
      foldr (fun v later => match huge v with Some lit => Some lit | None => later end)
            None vs
  | Object ms =>
      foldr (fun kv later => match huge kv.2 with Some lit => Some lit | None => later end)
            None ms
  | _ => None
  end.

(** A value stored into an [interface{}].  Nil stands where a number
    literal was outside the range of float64; of the members of an object
    that have the same name the last one stays. *)
Fixpoint stored (v : value) : iface :=
  match v with
  | Null => INil
  | Bool b => IBool b
  | Number n => IFloat64 n
  | Huge _ => INil
  | Str s => IString s
  | Array vs => ISlice (stored <$> vs)
  | Object ms => IMap (foldl (fun m kv => <[kv.1 := stored kv.2]> m) ∅ ms)
  end.

(** The map an object fills. *)
Definition fields (ms : list (string * value)) : gmap string iface :=
  foldl (fun m kv => <[kv.1 := stored kv.2]> m) ∅ ms.

(** One element decoded into a [map[string]interface{}]: an object fills
    the map, and a number literal in it that float64 cannot hold is a type
    error ("number " and the literal); null leaves the map nil (which reads
    like an empty one); anything else leaves it nil and is a type error. *)
Definition element (v : value) : gmap string iface * option error :=
  match v with
  | Object ms =>
      (fields ms,
       match huge v with
       | Some lit => Some (UnmarshalTypeError ("number " ++ lit))
       | None => None
       end)
  | Null => (∅, None)
  | _ => (∅, Some (UnmarshalTypeError (describe v)))
  end.

(** The elements in turn; decoding goes on after a type error and the
    first one is reported. *)
Fixpoint elements (vs : list value) : list (gmap string iface) * option error :=
  match vs with
  | [] => ([], None)
  | v :: rest =>
      let '(m, e) := element v in
      let '(ms, es) := elements rest in
      (m :: ms, match e with Some _ => e | None => es end)
  end.

(** [json.Unmarshal(body, &blocks)] with [blocks : []map[string]interface{}]. *)
Definition Unmarshal (body : text) : list (gmap string iface) * option error :=
  match body with
  | Malformed msg => ([], Some (SyntaxError msg))
  | Text Null => ([], None)
  | Text (Array vs) => elements vs
  | Text v => ([], Some (UnmarshalTypeError (describe v)))
  end.

End json.

(** ** Package net/http *)

Module http.

(** A response: its status code and its body, whose bytes [io.ReadAll]
    returns unless reading them fails (with the message [bodyErr]). *)
Record Response : Type :=
  { StatusCode : Z; Body : json.text; bodyErr : option string }.

(** What a GET request meets: no response at all (connection refused,
    timeout, ...: always a [*url.Error]) or a response of any status. *)
Inductive Exchange : Type :=
| Failed (cause : string)
| Responded (res : Response).

(** The same response under another status code. *)
Definition withStatus (code : Z) (res : Response) : Response :=
  {| StatusCode := code; Body := Body res; bodyErr := bodyErr res |}.

Definition Get (net : string -> Exchange) (url : string) : option Response * option error :=
  match net url with
  | Failed cause => (None, Some (UrlError "Get" url cause))
  | Responded res => (Some res, None)
  end.

End http.

Module io.
(** [io.ReadAll(res.Body)]. *)
Definition ReadAll (res : http.Response) : json.text * option error :=
  match http.bodyErr res with
  | Some msg => (json.Malformed "", Some (ReadError msg))
  | None => (http.Body res, None)
  end.
End io.

(** ** fetchLastBlock (main.go:192) *)

Definition blocksURL : string := "https://p2pool.io/mini/api/pool/blocks".

(** [block{}] *)
Definition block0 : block := {| height := 0; ts := time.zero |}.

Definition fetchLastBlock (net : string -> http.Exchange) : block * option error * list event :=
  match http.Get net blocksURL with
  | (_, Some err) => (block0, Some err, [Get blocksURL])
  | (None, None) => (block0, None, [Get blocksURL])   (* Get never answers so *)
  | (Some res, None) =>
      match io.ReadAll res with
      | (_, Some err) => (block0, Some err, [Get blocksURL])
      | (body, None) =>
          match json.Unmarshal body with
          | (_, Some err) => (block0, Some err, [Get blocksURL])
          | (blocks, None) =>
              match blocks with
              | [] => (block0, Some errUnexpectedStructure, [Get blocksURL])
              | first :: _ =>
                  match first !! "height" with
                  | None => (block0, Some errUnexpectedStructure, [Get blocksURL])
                  | Some (IFloat64 lastHeight) =>
                      match first !! "ts" with
                      | Some (IFloat64 lastTs) =>
                          let lastTime := time.UnixMilli (int64_of_float64 (float lastTs)) in
                          ({| height := int_of_float64 (float lastHeight); ts := lastTime |},
                           None, [Get blocksURL])
                      | _ => (block0, Some errUnexpectedStructure, [Get blocksURL])
                      end
                  | Some _ => (block0, Some errUnexpectedStructure, [Get blocksURL])
                  end
              end
          end
      end
  end.

(** ** tryNotifyIfNewBlock (main.go:139) and worker (main.go:124) *)

(** The surroundings of one polling step: what the network answers, what
    the file system holds, and what the [k]-th [bot.Send] of the step
    returns for the message it is given. *)
Record World : Type :=
  { net : string -> http.Exchange;
    fsys : string -> os.Entry;
    send : nat -> MessageConfig -> option error }.

(** The package-level variables that change while the program runs. *)
Record globals : Type := { lastBlockChecked : block }.

(** main.go:27 *)
Definition initial : globals := {| lastBlockChecked := block0 |}.

(** The test of line 145. *)
Definition isNewEvent (g : globals) (lastBlock : block) : bool :=
  negb (height lastBlock =? height (lastBlockChecked g)).

(** The assignment of line 146. *)
Definition acknowledge (lastBlock : block) (g : globals) : globals :=
  {| lastBlockChecked := lastBlock |}.

Definition NewMessage (id : Z) (lastBlock : block) : MessageConfig :=
  {| ChatID := id; Height := height lastBlock; At := ts lastBlock |}.

(** The [for _, id := range ids] loop of lines 152-158, [k] sends into the
    step: the sends made, and the error the loop returns with. *)
Fixpoint notifyAll (bot : nat -> MessageConfig -> option error) (k : nat)
    (lastBlock : block) (ids : list Z) : list event * option error :=
  match ids with
  | [] => ([], None)
  | id :: rest =>
      let msg := NewMessage id lastBlock in
      match bot k msg with
      | Some err => ([Send msg (Some err)], Some err)
      | None =>
          let '(evs, err) := notifyAll bot (S k) lastBlock rest in
          (Send msg None :: evs, err)
      end
  end.

Definition tryNotifyIfNewBlock (w : World) (subscribersFilePath : string) (g : globals)
  : globals * option error * list event :=
  match fetchLastBlock (net w) with
  | (_, Some err, fetched) => (g, Some err, fetched)
  | (lastBlock, None, fetched) =>
      if isNewEvent g lastBlock then
        let g := acknowledge lastBlock g in
        match getSubscribers (fsys w) subscribersFilePath with
        | (_, Some err, listed) =>
            (g, Some err, fetched ++ Assign lastBlock :: listed)%list
        | (ids, None, listed) =>
            let '(sent, err) := notifyAll (send w) 0%nat lastBlock ids in
            (g, err, fetched ++ Assign lastBlock :: listed ++ sent)%list
        end
      else (g, None, fetched)
  end.

(** The first [length ws] rounds of the [for] loop of [worker], one world
    per round; [context.TODO()] is never done. *)
Fixpoint worker (ws : list World) (subscribersFilePath : string) (g : globals)
  : globals * list event :=
  match ws with
  | [] => (g, [])
  | w :: later =>
      let '(g, err, evs) := tryNotifyIfNewBlock w subscribersFilePath g in
      let logged :=
        match err with
        | Some e => [PrintfError e]
        | None => []
        end in
      let '(g, rest) := worker later subscribersFilePath g in
      (g, evs ++ logged ++ Sleep :: rest)%list
  end.

(** ** Reading a run *)

(** The messages handed to [bot.Send], in order. *)
Definition attempts (evs : list event) : list MessageConfig :=
  omap (fun ev => match ev with Send msg _ => Some msg | _ => None end) evs.

(** The chats whose send failed, each with the error. *)
Definition failures (evs : list event) : list (Z * error) :=
  omap (fun ev => match ev with
                  | Send msg (Some err) => Some (ChatID msg, err)
                  | _ => None
                  end) evs.

(** The paths opened, in order. *)
Definition opens (evs : list event) : list string :=
  omap (fun ev => match ev with Open path => Some path | _ => None end) evs.

(** The blocks assigned to [lastBlockChecked], in order. *)
Definition assignments (evs : list event) : list block :=
  omap (fun ev => match ev with Assign b => Some b | _ => None end) evs.

(** ** Sample surroundings *)

(** The decimal text of an integer of any size. *)
Definition decimalText (z : Z) : string :=
  let digits := itoa.formatBits (S (Z.to_nat (Z.log2 (Z.abs z)))) (Z.abs z) EmptyString in
  if z <? 0 then String "-"%char digits else digits.

(** A float64 as a JSON number, when it is one. *)
Definition asNumber (f : float64) : option number :=
  match isNumber f as ok return isNumber f = ok -> option number with
  | true => fun Hok => Some {| float := f; float_ok := Hok |}
  | false => fun _ => None
  end eq_refl.

(** The JSON value of an integer literal. *)
Definition jsonInt (z : Z) : json.value :=
  match asNumber (float64_of_Z z) with
  | Some n => json.Number n
  | None => json.Huge (decimalText z)
  end.

Definition blockRecord (h t : Z) : json.value :=
  json.Object [("height", jsonInt h); ("ts", jsonInt t)].

Definition answering (status : Z) (v : json.value) : string -> http.Exchange :=
  fun _ => http.Responded
    {| http.StatusCode := status; http.Body := json.Text v; http.bodyErr := None |}.

Definition delivering : nat -> MessageConfig -> option error := fun _ _ => None.

(** Every send succeeds but the one to chat [id]. *)
Definition failingFor (id : Z) : nat -> MessageConfig -> option error :=
  fun _ msg => if ChatID msg =? id then Some (SendError "Forbidden") else None.

Definition tick (h t : Z) : World :=
  {| net := answering 200 (json.Array [blockRecord h t]);
     fsys := oneFile "subs" (textFile "5
6
");
     send := delivering |}.

(** A round in which the pool API cannot be reached. *)
Definition offline : World :=
  {| net := fun _ => http.Failed "connection refused";
     fsys := oneFile "subs" (textFile "5
6
");
     send := delivering |}.

(** A round in which the subscriber file holds a line that is no number. *)
Definition garbled (h t : Z) : World :=
  {| net := answering 200 (json.Array [blockRecord h t]);
     fsys := oneFile "subs" (textFile "5
six
");
     send := delivering |}.

(** ** Writing the subscriber file *)

Module oswrite.

(** What a write meets: it goes through, or it fails with [errno] after
    [written] bytes. *)
Inductive Written : Type :=
| Complete
| Broken (written : nat) (errno : Errno).

(** The file system with [name] leading to [e]. *)
Definition put (fsys : string -> os.Entry) (name : string) (e : os.Entry)
  : string -> os.Entry :=
  fun p => if String.eqb p name then e else fsys p.

(** [os.OpenFile(name, os.O_APPEND|os.O_CREATE|os.O_WRONLY, 0644)]: a file
    that is not there is created empty. *)
Definition OpenFile (fsys : string -> os.Entry) (name : string)
  : (string -> os.Entry) * option os.File * option error :=
  match fsys name with
  | os.Absent =>
      let f := {| os.contents := EmptyString; os.readErr := None |} in
      (put fsys name (os.Present f), Some f, None)
  | os.Unopenable errno => (fsys, None, Some (PathError "open" name errno))
  | os.Present f => (fsys, Some f, None)
  end.

(** [file.WriteString(s)] on a file opened for appending: the bytes go
    after those the file holds. *)
Definition WriteString (name : string) (f : os.File) (s : string) (w : Written)
  : os.File * option error :=
  match w with
  | Complete =>
      ({| os.contents := os.contents f ++ s; os.readErr := os.readErr f |}, None)
  | Broken n errno =>
      ({| os.contents := os.contents f ++ String.substring 0 n s;
          os.readErr := os.readErr f |},
       Some (PathError "write" name errno))
  end.

End oswrite.

(** ** saveSubscriberID (main.go:109) *)

Definition newline : string := String "010"%char EmptyString.

Definition saveSubscriberID (fsys : string -> os.Entry) (w : oswrite.Written)
    (tgid : Z) (subscribersFilePath : string)
  : (string -> os.Entry) * option error :=
  match oswrite.OpenFile fsys subscribersFilePath with
  | (fsys, _, Some err) => (fsys, Some err)
  | (fsys, None, None) => (fsys, None)   (* OpenFile never answers so *)
  | (fsys, Some file, None) =>
      let '(file, err) :=
        oswrite.WriteString subscribersFilePath file
          (itoa.FormatInt tgid ++ newline) w in
      let fsys := oswrite.put fsys subscribersFilePath (os.Present file) in
      match err with
      | Some e => (fsys, Some e)
      | None => (fsys, None)
      end
  end.

(** A text that is empty or ends in a newline. *)
Fixpoint newlineTerminated (s : string) : bool :=
  match s with
  | EmptyString => true
  | String c rest =>
      match rest with
      | EmptyString => Ascii.eqb c "010"%char
      | _ => newlineTerminated rest
      end
  end.

(** The identifiers saved one after the other, every write going through. *)
Fixpoint saveAll (fsys : string -> os.Entry) (ids : list Z) (path : string)
  : string -> os.Entry :=
  match ids with
  | [] => fsys
  | id :: rest => saveAll (saveSubscriberID fsys oswrite.Complete id path).1 rest path
  end.

(** ** The loop over the updates (main.go:90) *)

Module tgbotapi.

Record User : Type := { UserName : string }.

(** A message: its sender (a pointer that may be nil), the ID of its chat
    and its text. *)
Record Message : Type :=
  { MessageID : Z; From : option User; ChatID : Z; Text : string }.

(** An update; [Message] is nil for updates that are no message. *)
Record Update : Type := { UpdateMessage : option Message }.

(** The answer built at lines 95-102. *)
Record Reply : Type := { To : Z; Body : string; ReplyToMessageID : Z }.

End tgbotapi.

Definition failedText : string :=
  "Ошибка при попытке подписаться на уведомления :c".

Definition subscribedText : string :=
  "Вы успешно подписались на обновления! Теперь бот будет присылать вам сообщение с каждым найденным блоком пулом https://p2pool.io/mini/#pool c:".

(** What the loop does to the outside, in order. *)
Inductive served : Type :=
| Logged (line : string)               (* log.Printf("[%s] %s", ...) *)
| Answered (msg : tgbotapi.Reply).     (* bot.Send(msg), its result dropped *)

(** The body of the loop for one update.  [None] is a panic: reading
    [From.UserName] through a nil [From] at line 92. *)
Definition handleUpdate (fsys : string -> os.Entry) (w : oswrite.Written)
    (subscribersFile : string) (update : tgbotapi.Update)
  : option ((string -> os.Entry) * list served) :=
  match tgbotapi.UpdateMessage update with
  | None => Some (fsys, [])
  | Some m =>
      match tgbotapi.From m with
      | None => None
      | Some user =>
          let line := "[" ++ tgbotapi.UserName user ++ "] " ++ tgbotapi.Text m in
          let '(fsys, err) :=
            saveSubscriberID fsys w (tgbotapi.ChatID m) subscribersFile in
          let text :=
            match err with
            | Some _ => failedText
            | None => subscribedText
            end in
          Some (fsys,
                [Logged line;
                 Answered {| tgbotapi.To := tgbotapi.ChatID m;
                             tgbotapi.Body := text;
                             tgbotapi.ReplyToMessageID := tgbotapi.MessageID m |}])
      end
  end.

(** The loop over the updates received, each with what its write meets. *)
Fixpoint serve (fsys : string -> os.Entry) (subscribersFile : string)
    (updates : list (tgbotapi.Update * oswrite.Written))
  : option ((string -> os.Entry) * list served) :=
  match updates with
  | [] => Some (fsys, [])
  | (update, w) :: later =>
      match handleUpdate fsys w subscribersFile update with
      | None => None
      | Some (fsys, evs) =>
          match serve fsys subscribersFile later with
          | None => None
          | Some (fsys, rest) => Some (fsys, (evs ++ rest)%list)
          end
      end
  end.

(** ** Reading a run of the worker *)

(** The blocks the rounds fetch, in order; a round whose fetch fails brings
    none. *)
Definition fetchedBlocks (ws : list World) : list block :=
  omap (fun w => match fetchLastBlock (net w) with
                 | (b, None, _) => Some b
                 | _ => None
                 end) ws.

(** The blocks of a sequence whose height is not the height before them,
    [h] being the height before the first. *)
Fixpoint changes (h : Z) (bs : list block) : list block :=
  match bs with
  | [] => []
  | b :: rest =>
      if height b =? h then changes h rest else b :: changes (height b) rest
  end.

(** A message of the chat [id] with a sender. *)
Definition messageFrom (id : Z) (text : string) : tgbotapi.Update :=
  {| tgbotapi.UpdateMessage :=
       Some {| tgbotapi.MessageID := 1;
               tgbotapi.From := Some {| tgbotapi.UserName := "alice" |};
               tgbotapi.ChatID := id;
               tgbotapi.Text := text |} |}.

(** A text of decimal digits only. *)
Fixpoint digitsOnly (s : string) : bool :=
  match s with
  | EmptyString => true
  | String c rest => isDigit c && digitsOnly rest
  end.

(** A text without a line feed and without a carriage return. *)
Fixpoint oneLine (s : string) : bool :=
  match s with
  | EmptyString => true
  | String c rest =>
      negb (Ascii.eqb c "010"%char) && negb (Ascii.eqb c "013"%char) && oneLine rest
  end.

(** ** Reading the loop over the updates *)

(** The chats of the updates that carry a message, in order. *)
Definition chatIDs (updates : list tgbotapi.Update) : list Z :=
  omap (fun u => tgbotapi.ChatID <$> tgbotapi.UpdateMessage u) updates.

(** The messages the updates carry, in order. *)
Definition messages (updates : list tgbotapi.Update) : list tgbotapi.Message :=
  omap tgbotapi.UpdateMessage updates.

(** An update that carries a message without a sender. *)
Definition senderless (update : tgbotapi.Update) : bool :=
  match tgbotapi.UpdateMessage update with
  | Some m => match tgbotapi.From m with None => true | Some _ => false end
  | None => false
  end.

(** The answers sent, in order. *)
Definition answers (evs : list served) : list tgbotapi.Reply :=
  omap (fun ev => match ev with Answered msg => Some msg | _ => None end) evs.

(** ** Reading a response *)

(** A JSON value with the shape of a slice of maps: null, or an array whose
    elements are objects or null. *)
Definition arrayOfObjects (v : json.value) : bool :=
  match v with
  | json.Null => true
  | json.Array vs =>
      forallb (fun v => match v with
                        | json.Object _ | json.Null => true
                        | _ => false
                        end) vs
  | _ => false
  end.

(** A JSON value that holds, at any depth, a number literal outside the
    range of float64. *)
Fixpoint overflows (v : json.value) : bool :=
  match v with
  | json.Huge _ => true
  | json.Array vs => existsb overflows vs
  | json.Object ms => existsb (fun kv => overflows kv.2) ms
  | _ => false
  end.

(** A line as it stands in the file (a carriage return at its end still
    on it) that the listing gets past: the scanner's buffer holds it and,
    the carriage return dropped, it is a decimal signed 64-bit integer. *)
Definition goodLine (line : string) : Prop :=
  bufio.tooLong line = false /\ decimalInt64 (bufio.dropCR line) <> None.

(** A subscriber file in good order: it is there, it is empty or ends in a
    newline, and the scanner and the parser go through it and find [ids]. *)
Definition listsCleanly (fsys : string -> os.Entry) (path : string) (ids : list Z) : Prop :=
  exists f toks,
    fsys path = os.Present f
    /\ newlineTerminated (os.contents f) = true
    /\ os.readErr f = None
    /\ bufio.scanPieces (bufio.pieces (os.contents f)) = (toks, None)
    /\ parseTokens [] toks = (ids, None).

(** A text of [n] zeros. *)
Fixpoint zeros (n : nat) : string :=
  match n with
  | O => EmptyString
  | S n => String "0"%char (zeros n)
  end.

(** * Properties *)

(** ** The embedding on sample inputs *)

Example ParseInt_neg : strconv.ParseInt "-9223372036854775808" = (minInt64, None).
Proof. reflexivity. Qed.

Example ParseInt_big : strconv.ParseInt "9223372036854775808"
  = (maxInt64, Some (NumError "ParseInt" "9223372036854775808" ErrRange)).
Proof. reflexivity. Qed.

Example ParseInt_bad : strconv.ParseInt "12a"
  = (0, Some (NumError "ParseInt" "12a" ErrSyntax)).
Proof. reflexivity. Qed.

Example ParseInt_sign : strconv.ParseInt "-" = (0, Some (NumError "ParseInt" "-" ErrSyntax)).
Proof. reflexivity. Qed.

Example ParseInt_42 : strconv.ParseInt "42" = (42, None).
Proof. reflexivity. Qed.

Example ParseInt_plus : strconv.ParseInt "+7" = (7, None).
Proof. reflexivity. Qed.

Example ParseInt_huge : snd (strconv.ParseInt "99999999999999999999999")
  = Some (NumError "ParseInt" "99999999999999999999999" ErrRange).
Proof. reflexivity. Qed.

Example ParseInt_empty : strconv.ParseInt "" = (0, Some (NumError "ParseInt" "" ErrSyntax)).
Proof. reflexivity. Qed.

Example getSubscribers_two :
  getSubscribers (oneFile "subs" (textFile "42
-7
")) "subs" = ([42; -7], None, [Open "subs"]).
Proof. reflexivity. Qed.

Example getSubscribers_no_final_newline :
  getSubscribers (oneFile "subs" (textFile "42
-7")) "subs" = ([42; -7], None, [Open "subs"]).
Proof. reflexivity. Qed.

Example getSubscribers_blank_line :
  getSubscribers (oneFile "subs" (textFile "42

7
")) "subs" = ([], Some (NumError "ParseInt" "" ErrSyntax), [Open "subs"]).
Proof. reflexivity. Qed.

(** The end-to-end scenario: heights 100, 100, 101 give two fan-outs. *)
Example worker_three_ticks :
  let '(g, evs) :=
    worker [tick 100 1700000000000; tick 100 1700000000000; tick 101 1700000600000]
           "subs" initial in
  g = {| lastBlockChecked := {| height := 101; ts := 1700000600000 |} |}
  /\ map Height (attempts evs) = [100; 100; 101; 101]
  /\ map ChatID (attempts evs) = [5; 6; 5; 6].
Proof. vm_compute. auto. Qed.

(** ** Change detection *)

Lemma fetchLastBlock_events net : (fetchLastBlock net).2 = [Get blocksURL].
Proof. unfold fetchLastBlock. repeat case_match; reflexivity. Qed.

Lemma getSubscribers_opens fsys path : opens (getSubscribers fsys path).2 = [path].
Proof. unfold getSubscribers. repeat case_match; reflexivity. Qed.

Lemma getSubscribers_quiet fsys path :
  attempts (getSubscribers fsys path).2 = [] /\ assignments (getSubscribers fsys path).2 = [].
Proof. unfold getSubscribers. repeat case_match; split; reflexivity. Qed.

Lemma notifyAll_quiet bot k b ids :
  opens (notifyAll bot k b ids).1 = [] /\ assignments (notifyAll bot k b ids).1 = [].
Proof.
  revert k. induction ids as [|id ids IH]; intros k; simpl; [done|].
  destruct (bot k _); [done|].
  specialize (IH (S k)). destruct (notifyAll bot (S k) b ids) as [evs err].
  exact IH.
Qed.

(** Line 145, read as a proposition. *)
Lemma isNewEvent_true g b :
  isNewEvent g b = true <-> height b <> height (lastBlockChecked g).
Proof. unfold isNewEvent. rewrite negb_true_iff, Z.eqb_neq. reflexivity. Qed.

Lemma isNewEvent_false g b :
  isNewEvent g b = false <-> height b = height (lastBlockChecked g).
Proof. unfold isNewEvent. rewrite negb_false_iff, Z.eqb_eq. reflexivity. Qed.

(** C1. After acknowledging a block B1, a block B2 is a new event exactly
    when its height is not the height of B1: not when the two heights are
    equal, and always when they differ, whichever is the larger. *)
Theorem isNewEvent_iff_height_differs (B1 B2 : block) (g : globals) :
  isNewEvent (acknowledge B1 g) B2 = true <-> height B2 <> height B1.
Proof. rewrite isNewEvent_true. reflexivity. Qed.

Lemma isNewEvent_same_height (B1 B2 : block) (g : globals) :
  height B2 = height B1 -> isNewEvent (acknowledge B1 g) B2 = false.
Proof. intros Heq. apply isNewEvent_false. exact Heq. Qed.

Lemma isNewEvent_either_direction (B1 B2 : block) (g : globals) :
  height B2 < height B1 \/ height B1 < height B2 ->
  isNewEvent (acknowledge B1 g) B2 = true.
Proof. intros Hne. apply isNewEvent_true. simpl. lia. Qed.

(** A step whose fetch fails leaves the variables alone. *)
Lemma tryNotifyIfNewBlock_fetch_failed w path g b e fetched :
  fetchLastBlock (net w) = (b, Some e, fetched) ->
  tryNotifyIfNewBlock w path g = (g, Some e, fetched).
Proof. intros Hf. unfold tryNotifyIfNewBlock. rewrite Hf. reflexivity. Qed.

(** The rounds of [worker] in which no fetch succeeds change nothing. *)
Lemma worker_all_fetches_failed ws path g :
  Forall (fun w => (fetchLastBlock (net w)).1.2 <> None) ws ->
  (worker ws path g).1 = g.
Proof.
  induction 1 as [|w ws Hw _ IH]; simpl; [done|].
  destruct (fetchLastBlock (net w)) as [[b [e|]] fetched] eqn:Hf; simpl in Hw; [|done].
  rewrite (tryNotifyIfNewBlock_fetch_failed _ _ _ _ _ _ Hf).
  destruct (worker ws path g) as [g' rest]. exact IH.
Qed.

(** C2 (as the code has it). [lastBlockChecked] starts as the zero block, of
    height 0 (there is no "none" and no negative sentinel).  Whatever
    rounds of failed fetches come first, the first fetch that succeeds is
    a new event, and is acknowledged, whenever its height is not 0; so it
    is for every height from 1 on. *)
Theorem first_fetch_new_unless_height_zero ws w path b fetched :
  Forall (fun w' => (fetchLastBlock (net w')).1.2 <> None) ws ->
  fetchLastBlock (net w) = (b, None, fetched) ->
  height b <> 0 ->
  let g := (worker ws path initial).1 in
  height (lastBlockChecked g) = 0
  /\ isNewEvent g b = true
  /\ (tryNotifyIfNewBlock w path g).1.1 = {| lastBlockChecked := b |}
  /\ assignments (tryNotifyIfNewBlock w path g).2 = [b].
Proof.
  intros Hfail Hf Hb g. subst g.
  rewrite (worker_all_fetches_failed _ _ _ Hfail).
  assert (Hnew : isNewEvent initial b = true) by (apply isNewEvent_true; exact Hb).
  split; [reflexivity|]. split; [exact Hnew|].
  unfold tryNotifyIfNewBlock. rewrite Hf, Hnew.
  pose proof (fetchLastBlock_events (net w)) as Hev. rewrite Hf in Hev. simpl in Hev.
  subst fetched.
  pose proof (getSubscribers_quiet (fsys w) path) as [_ Hga].
  destruct (getSubscribers (fsys w) path) as [[ids [e|]] listed]; simpl in *.
  - rewrite Hga. done.
  - pose proof (notifyAll_quiet (send w) 0%nat b ids) as [_ Hna].
    destruct (notifyAll (send w) 0%nat b ids) as [sent err]. simpl in *.
    unfold assignments in *. rewrite omap_app, Hga, Hna. done.
Qed.

Lemma first_fetch_new_unless_height_zero_witness :
  let g := (worker [offline; offline] "subs" initial).1 in
  let w := tick 100 1700000000000 in
  let b := {| height := 100; ts := 1700000000000 |} in
  height (lastBlockChecked g) = 0
  /\ isNewEvent g b = true
  /\ (tryNotifyIfNewBlock w "subs" g).1.1 = {| lastBlockChecked := b |}
  /\ assignments (tryNotifyIfNewBlock w "subs" g).2 = [b].
Proof.
  apply (first_fetch_new_unless_height_zero [offline; offline]
           (tick 100 1700000000000) "subs"
           {| height := 100; ts := 1700000000000 |} [Get blocksURL]).
  - repeat constructor; vm_compute; discriminate.
  - vm_compute. reflexivity.
  - simpl. lia.
Defined.

(** C2 fails as stated: a first block of height 0 has a height >= 0 and is
    not a new event, the starting height being 0 and not -1; that step
    assigns nothing and sends nothing. *)
Lemma first_fetch_height_zero_not_new :
  let b := {| height := 0; ts := 1700000000000 |} in
  let w := tick 0 1700000000000 in
  height (lastBlockChecked initial) = 0
  /\ fetchLastBlock (net w) = (b, None, [Get blocksURL])
  /\ 0 <= height b
  /\ isNewEvent initial b = false
  /\ tryNotifyIfNewBlock w "subs" initial = (initial, None, [Get blocksURL]).
Proof. vm_compute. repeat split; congruence. Qed.

(** C10. When the fetched block has the height of [lastBlockChecked], the
    step opens no subscriber file and sends nothing, and the variable keeps
    its value, stored time included, whatever the fetched time is (another
    one, in particular). *)
Theorem same_height_changes_nothing w path g b fetched :
  fetchLastBlock (net w) = (b, None, fetched) ->
  height b = height (lastBlockChecked g) ->
  tryNotifyIfNewBlock w path g = (g, None, fetched)
  /\ ts (lastBlockChecked (tryNotifyIfNewBlock w path g).1.1) = ts (lastBlockChecked g)
  /\ opens (tryNotifyIfNewBlock w path g).2 = []
  /\ attempts (tryNotifyIfNewBlock w path g).2 = []
  /\ assignments (tryNotifyIfNewBlock w path g).2 = [].
Proof.
  intros Hf Hh.
  assert (Hstep : tryNotifyIfNewBlock w path g = (g, None, fetched)).
  { unfold tryNotifyIfNewBlock. rewrite Hf.
    apply isNewEvent_false in Hh. rewrite Hh. reflexivity. }
  rewrite Hstep. simpl.
  pose proof (fetchLastBlock_events (net w)) as Hev. rewrite Hf in Hev. simpl in Hev.
  subst fetched. done.
Qed.

Lemma same_height_changes_nothing_witness :
  let w := tick 100 1700000600000 in
  let g := {| lastBlockChecked := {| height := 100; ts := 1700000000000 |} |} in
  (fetchLastBlock (net w)).1.1 = {| height := 100; ts := 1700000600000 |}
  /\ tryNotifyIfNewBlock w "subs" g = (g, None, [Get blocksURL])
  /\ ts (lastBlockChecked (tryNotifyIfNewBlock w "subs" g).1.1) = 1700000000000
  /\ opens (tryNotifyIfNewBlock w "subs" g).2 = []
  /\ attempts (tryNotifyIfNewBlock w "subs" g).2 = []
  /\ assignments (tryNotifyIfNewBlock w "subs" g).2 = [].
Proof.
  split; [vm_compute; reflexivity|].
  apply (same_height_changes_nothing (tick 100 1700000600000) "subs"
           {| lastBlockChecked := {| height := 100; ts := 1700000000000 |} |}
           {| height := 100; ts := 1700000600000 |} [Get blocksURL]).
  - vm_compute. reflexivity.
  - reflexivity.
Defined.

(** Conversely, a step that assigns, opens the subscriber file or sends has
    fetched a block of another height. *)
Lemma activity_needs_height_change w path g :
  let r := tryNotifyIfNewBlock w path g in
  r.1.1 <> g \/ assignments r.2 <> [] \/ opens r.2 <> [] \/ attempts r.2 <> [] ->
  exists b fetched,
    fetchLastBlock (net w) = (b, None, fetched)
    /\ height b <> height (lastBlockChecked g).
Proof.
  intros r Hact. subst r.
  destruct (fetchLastBlock (net w)) as [[b [e|]] fetched] eqn:Hf.
  - exfalso. rewrite (tryNotifyIfNewBlock_fetch_failed _ _ _ _ _ _ Hf) in Hact.
    pose proof (fetchLastBlock_events (net w)) as Hev. rewrite Hf in Hev.
    simpl in *. subst fetched. intuition congruence.
  - exists b, fetched. split; [reflexivity|].
    intros Hh. apply isNewEvent_false in Hh.
    unfold tryNotifyIfNewBlock in Hact. rewrite Hf, Hh in Hact.
    pose proof (fetchLastBlock_events (net w)) as Hev. rewrite Hf in Hev.
    simpl in *. subst fetched. intuition congruence.
Qed.

(** ** Acknowledge first, then list, then send *)

(** [getSubscribers] starts by opening the file and, besides, only logs. *)
Lemma getSubscribers_events fsys path :
  exists logs,
    (getSubscribers fsys path).2 = Open path :: logs
    /\ opens logs = [] /\ attempts logs = [] /\ assignments logs = [].
Proof.
  unfold getSubscribers. repeat case_match; simpl; eexists; (split; [reflexivity|done]).
Qed.

(** C4. A step that detects a new event assigns the fetched block to
    [lastBlockChecked] once, and does so before it opens the subscriber
    file and before any send.  When listing the subscribers then fails, the
    step ends with that error and without a send, and a later step that
    fetches a block of the same height detects nothing. *)
Theorem acknowledged_once_before_listing w path g b fetched :
  fetchLastBlock (net w) = (b, None, fetched) ->
  isNewEvent g b = true ->
  let r := tryNotifyIfNewBlock w path g in
  r.1.1 = acknowledge b g
  /\ assignments r.2 = [b]
  /\ (exists after,
        r.2 = Get blocksURL :: Assign b :: Open path :: after
        /\ opens after = [] /\ assignments after = [])
  /\ (forall ids e listed,
        getSubscribers (fsys w) path = (ids, Some e, listed) ->
        r.1.2 = Some e
        /\ attempts r.2 = []
        /\ forall w' b' fetched',
             fetchLastBlock (net w') = (b', None, fetched') ->
             height b' = height b ->
             isNewEvent r.1.1 b' = false
             /\ tryNotifyIfNewBlock w' path r.1.1 = (r.1.1, None, fetched')).
Proof.
  intros Hf Hnew r. subst r.
  pose proof (fetchLastBlock_events (net w)) as Hev. rewrite Hf in Hev. simpl in Hev.
  subst fetched.
  unfold tryNotifyIfNewBlock. rewrite Hf, Hnew.
  destruct (getSubscribers_events (fsys w) path) as (logs & Hlogs & Ho & Ha & Hs).
  destruct (getSubscribers (fsys w) path) as [[ids [e|]] listed] eqn:Hg;
    simpl in Hlogs; subst listed.
  - simpl. split; [reflexivity|]. split.
    { unfold assignments in *. simpl. rewrite Hs. reflexivity. }
    split; [exists logs; done|].
    intros ids' e' listed' [= _ <- _]. split; [reflexivity|]. split.
    { unfold attempts in *. simpl. exact Ha. }
    intros w' b' fetched' Hf' Hh.
    assert (Hold : isNewEvent (acknowledge b g) b' = false)
      by (apply isNewEvent_false; exact Hh).
    split; [exact Hold|]. rewrite Hf', Hold. reflexivity.
  - pose proof (notifyAll_quiet (send w) 0%nat b ids) as [Hno Hna].
    destruct (notifyAll (send w) 0%nat b ids) as [sent err]. simpl in *.
    split; [reflexivity|]. split.
    { unfold assignments in *. rewrite omap_app, Hs, Hna. reflexivity. }
    split; [|discriminate].
    exists (logs ++ sent)%list. unfold opens, assignments in *.
    rewrite !omap_app, Ho, Hs, Hno, Hna. done.
Qed.

Lemma acknowledged_once_before_listing_witness :
  let b := {| height := 100; ts := 1700000000000 |} in
  let r := tryNotifyIfNewBlock (garbled 100 1700000000000) "subs" initial in
  r.1.1 = acknowledge b initial
  /\ assignments r.2 = [b]
  /\ (exists after,
        r.2 = Get blocksURL :: Assign b :: Open "subs" :: after
        /\ opens after = [] /\ assignments after = [])
  /\ (forall ids e listed,
        getSubscribers (fsys (garbled 100 1700000000000)) "subs" = (ids, Some e, listed) ->
        r.1.2 = Some e
        /\ attempts r.2 = []
        /\ forall w' b' fetched',
             fetchLastBlock (net w') = (b', None, fetched') ->
             height b' = height b ->
             isNewEvent r.1.1 b' = false
             /\ tryNotifyIfNewBlock w' "subs" r.1.1 = (r.1.1, None, fetched')).
Proof.
  apply (acknowledged_once_before_listing (garbled 100 1700000000000) "subs" initial
           {| height := 100; ts := 1700000000000 |} [Get blocksURL]).
  - vm_compute. reflexivity.
  - vm_compute. reflexivity.
Defined.

Example garbled_then_same_height :
  let '(g, evs) := worker [garbled 100 1700000000000; tick 100 1700000000000]
                          "subs" initial in
  g = {| lastBlockChecked := {| height := 100; ts := 1700000000000 |} |}
  /\ attempts evs = []
  /\ evs = [Get blocksURL; Assign {| height := 100; ts := 1700000000000 |}; Open "subs";
            PrintfError (NumError "ParseInt" "six" ErrSyntax); Sleep;
            Get blocksURL; Sleep].
Proof. vm_compute. auto. Qed.

(** ** The subscriber file *)

(** C5. Listing the subscribers of a file that does not exist gives the
    empty list and no error. *)
Theorem getSubscribers_missing_file fsys path :
  fsys path = os.Absent ->
  getSubscribers fsys path
  = ([], None, [Open path; Printf "no subscribers yet, skip"]).
Proof. intros Habs. unfold getSubscribers, os.Open. rewrite Habs. reflexivity. Qed.

Lemma getSubscribers_missing_file_witness :
  getSubscribers (fun _ => os.Absent) "subscribers.txt"
  = ([], None, [Open "subscribers.txt"; Printf "no subscribers yet, skip"]).
Proof.
  apply (getSubscribers_missing_file (fun _ => os.Absent) "subscribers.txt").
  reflexivity.
Defined.

(** C7, on the code: a subscriber file that is there but cannot be opened
    (permission denied) is listed like a missing one, as no subscribers and
    no error, under the log line "no subscribers yet, skip". *)
Lemma getSubscribers_permission_denied :
  getSubscribers (oneFile "subs" (os.Unopenable EACCES)) "subs"
  = ([], None, [Open "subs"; Printf "no subscribers yet, skip"]).
Proof. reflexivity. Qed.

(** It is so for every failure of [os.Open]. *)
Lemma getSubscribers_unopenable fsys path errno :
  fsys path = os.Unopenable errno ->
  getSubscribers fsys path
  = ([], None, [Open path; Printf "no subscribers yet, skip"]).
Proof. intros Hno. unfold getSubscribers, os.Open. rewrite Hno. reflexivity. Qed.

(** *** ParseInt and the decimal signed 64-bit integers *)

Lemma digit_of_digit c :
  isDigit c = true ->
  strconv.digit_of c = Some (strconv.byte_val c - 48)
  /\ 0 <= strconv.byte_val c - 48 <= 9.
Proof.
  unfold isDigit, strconv.digit_of. intros H. rewrite H.
  apply andb_true_iff in H as [H1 H2]. apply Z.leb_le in H1, H2. split; [reflexivity|lia].
Qed.

Lemma digit_of_other c d :
  isDigit c = false -> strconv.digit_of c = Some d -> 10 <= d.
Proof.
  unfold isDigit, strconv.digit_of. intros H. rewrite H.
  destruct ((97 <=? strconv.lower (strconv.byte_val c))
            && (strconv.lower (strconv.byte_val c) <=? 122)) eqn:Hl; [|discriminate].
  intros [= <-]. apply andb_true_iff in Hl as [H1 _]. apply Z.leb_le in H1. lia.
Qed.

Lemma digitsValue_ge s : forall acc v, 0 <= acc -> digitsValue acc s = Some v -> acc <= v.
Proof.
  induction s as [|c s IH]; intros acc v Hacc; simpl.
  - intros [= <-]. lia.
  - destruct (isDigit c) eqn:Hc; [|discriminate].
    destruct (digit_of_digit c Hc) as [_ Hd]. intros Hv.
    apply IH in Hv; lia.
Qed.

Lemma parseUint_loop_spec s0 s : forall n,
  0 <= n <= maxUint64 ->
  match digitsValue n s with
  | Some v =>
      strconv.parseUint_loop s0 n s
      = if v <=? maxUint64 then (v, None)
        else (maxUint64, Some (NumError "ParseUint" s0 ErrRange))
  | None =>
      strconv.parseUint_loop s0 n s = (0, Some (NumError "ParseUint" s0 ErrSyntax))
      \/ strconv.parseUint_loop s0 n s = (maxUint64, Some (NumError "ParseUint" s0 ErrRange))
  end.
Proof.
  pose proof (eq_refl : maxUint64 = 18446744073709551615) as Hmax.
  induction s as [|c s IH]; intros n Hn; simpl.
  - destruct (n <=? maxUint64) eqn:Hle; [reflexivity|]. apply Z.leb_gt in Hle. lia.
  - destruct (isDigit c) eqn:Hc.
    + destruct (digit_of_digit c Hc) as [-> Hd].
      set (d := strconv.byte_val c - 48) in *.
      destruct (10 <=? d) eqn:H10; [apply Z.leb_le in H10; lia|].
      destruct (maxUint64 / 10 + 1 <=? n) eqn:Hcut.
      * apply Z.leb_le in Hcut.
        change (maxUint64 / 10 + 1) with 1844674407370955162 in Hcut.
        assert (Hbig : maxUint64 < 10 * n + d) by lia.
        destruct (digitsValue (10 * n + d) s) as [v|] eqn:Hv; [|right; reflexivity].
        apply digitsValue_ge in Hv; [|lia].
        destruct (v <=? maxUint64) eqn:Hle; [apply Z.leb_le in Hle; lia|reflexivity].
      * apply Z.leb_gt in Hcut.
        change (maxUint64 / 10 + 1) with 1844674407370955162 in Hcut.
        assert (Hn10 : wrap64 (n * 10) = n * 10).
        { unfold wrap64. change (2 ^ 64) with 18446744073709551616.
          apply Z.mod_small. lia. }
        rewrite Hn10.
        destruct (Z_lt_le_dec maxUint64 (n * 10 + d)) as [Hover|Hfit].
        -- assert (Hw : wrap64 (n * 10 + d) = n * 10 + d - 2 ^ 64).
           { unfold wrap64. change (2 ^ 64) with 18446744073709551616.
             symmetry. apply (Z.mod_unique _ _ 1); lia. }
           rewrite Hw.
           assert (Hlt : (n * 10 + d - 2 ^ 64 <? n * 10) = true).
           { apply Z.ltb_lt. change (2 ^ 64) with 18446744073709551616. lia. }
           rewrite Hlt. simpl.
           destruct (digitsValue (10 * n + d) s) as [v|] eqn:Hv; [|right; reflexivity].
           apply digitsValue_ge in Hv; [|lia].
           destruct (v <=? maxUint64) eqn:Hle; [apply Z.leb_le in Hle; lia|reflexivity].
        -- assert (Hw : wrap64 (n * 10 + d) = n * 10 + d).
           { unfold wrap64. change (2 ^ 64) with 18446744073709551616.
             apply Z.mod_small. lia. }
           rewrite Hw.
           assert (Hlt : (n * 10 + d <? n * 10) = false) by (apply Z.ltb_ge; lia).
           assert (Hmx : (maxUint64 <? n * 10 + d) = false) by (apply Z.ltb_ge; lia).
           rewrite Hlt, Hmx. simpl.
           replace (10 * n + d) with (n * 10 + d) by lia.
           apply IH. lia.
    + left. destruct (strconv.digit_of c) as [d|] eqn:Hd; [|reflexivity].
      apply (digit_of_other c d Hc) in Hd. apply Z.leb_le in Hd. rewrite Hd. reflexivity.
Qed.

Lemma ParseUint_spec s :
  s <> EmptyString ->
  match digitsValue 0 s with
  | Some v =>
      strconv.ParseUint s
      = if v <=? maxUint64 then (v, None)
        else (maxUint64, Some (NumError "ParseUint" s ErrRange))
  | None =>
      strconv.ParseUint s = (0, Some (NumError "ParseUint" s ErrSyntax))
      \/ strconv.ParseUint s = (maxUint64, Some (NumError "ParseUint" s ErrRange))
  end.
Proof.
  intros Hs. destruct s as [|c s]; [done|].
  apply (parseUint_loop_spec (String c s) (String c s) 0).
  unfold maxUint64. simpl. lia.
Qed.

(** After the sign: what ParseInt makes of the digits. *)
Lemma ParseInt_after_sign (neg : bool) (s0 digits : string) :
  let r :=
    let '(un, err) := strconv.ParseUint digits in
    match err with
    | Some (NumError _ _ ErrSyntax) => (0, Some (strconv.syntaxError "ParseInt" s0))
    | _ =>
        let cutoff := 2 ^ 63 in
        if negb neg && (cutoff <=? un)
        then (cutoff - 1, Some (strconv.rangeError "ParseInt" s0))
        else if neg && (cutoff <? un)
        then (- cutoff, Some (strconv.rangeError "ParseInt" s0))
        else (if neg then - un else un, None)
    end in
  match
    match digits with
    | EmptyString => None
    | _ =>
        match digitsValue 0 digits with
        | Some v =>
            let z := if neg then - v else v in
            if (minInt64 <=? z) && (z <=? maxInt64) then Some z else None
        | None => None
        end
    end
  with
  | Some z => r = (z, None)
  | None => r.2 <> None
  end.
Proof.
  pose proof (eq_refl : maxUint64 = 18446744073709551615) as Hmax.
  pose proof (eq_refl : minInt64 = -9223372036854775808) as Hmin.
  pose proof (eq_refl : maxInt64 = 9223372036854775807) as Hmaxi.
  destruct digits as [|c ds]; [simpl; discriminate|].
  pose proof (ParseUint_spec (String c ds)) as Hspec.
  specialize (Hspec ltac:(discriminate)).
  set (digits := String c ds) in *.
  assert (Hnn : forall v, digitsValue 0 digits = Some v -> 0 <= v)
    by (intros v Hv; apply digitsValue_ge in Hv; lia).
  cbv zeta.
  destruct (digitsValue 0 digits) as [v|] eqn:Hv.
  - specialize (Hnn v eq_refl). rewrite Hspec.
    change (2 ^ 63) with 9223372036854775808.
    destruct (v <=? maxUint64) eqn:Hfit.
    + apply Z.leb_le in Hfit. destruct neg; simpl.
      * destruct (9223372036854775808 <? v) eqn:Hc.
        -- apply Z.ltb_lt in Hc.
           destruct (minInt64 <=? - v) eqn:H1; [apply Z.leb_le in H1; lia|]. simpl. discriminate.
        -- apply Z.ltb_ge in Hc.
           destruct (minInt64 <=? - v) eqn:H1; [|apply Z.leb_gt in H1; lia].
           destruct (- v <=? maxInt64) eqn:H2; [|apply Z.leb_gt in H2; lia].
           reflexivity.
      * destruct (9223372036854775808 <=? v) eqn:Hc.
        -- apply Z.leb_le in Hc.
           destruct (v <=? maxInt64) eqn:H2; [apply Z.leb_le in H2; lia|].
           rewrite andb_false_r. simpl. discriminate.
        -- apply Z.leb_gt in Hc.
           destruct (minInt64 <=? v) eqn:H1; [|apply Z.leb_gt in H1; lia].
           destruct (v <=? maxInt64) eqn:H2; [|apply Z.leb_gt in H2; lia].
           reflexivity.
    + apply Z.leb_gt in Hfit.
      assert (Hout : (if (minInt64 <=? (if neg then - v else v))
                         && ((if neg then - v else v) <=? maxInt64)
                      then Some (if neg then - v else v) else None) = None).
      { destruct neg.
        - destruct (minInt64 <=? - v) eqn:H1; [apply Z.leb_le in H1; lia|reflexivity].
        - destruct (v <=? maxInt64) eqn:H2; [apply Z.leb_le in H2; lia|].
          rewrite andb_false_r. reflexivity. }
      rewrite Hout. destruct neg; simpl; discriminate.
  - destruct Hspec as [-> | ->]; [simpl; discriminate|].
    destruct neg; simpl; discriminate.
Qed.

(** [ParseInt] accepts exactly the decimal signed 64-bit integers, and
    returns the number written. *)
Lemma ParseInt_decimalInt64 s :
  match decimalInt64 s with
  | Some z => strconv.ParseInt s = (z, None)
  | None => (strconv.ParseInt s).2 <> None
  end.
Proof.
  destruct s as [|c0 tl]; [simpl; discriminate|].
  unfold decimalInt64, strconv.ParseInt.
  destruct (Ascii.eqb c0 "+"); [|destruct (Ascii.eqb c0 "-")].
  - apply (ParseInt_after_sign false (String c0 tl) tl).
  - apply (ParseInt_after_sign true (String c0 tl) tl).
  - apply (ParseInt_after_sign false (String c0 tl) (String c0 tl)).
Qed.

(** The error of [ParseInt] is a [*NumError] that names ParseInt and the
    text it was given. *)
Lemma ParseInt_error s e :
  (strconv.ParseInt s).2 = Some e ->
  exists cause, e = NumError "ParseInt" s cause.
Proof.
  unfold strconv.ParseInt, strconv.syntaxError, strconv.rangeError.
  destruct s as [|c0 tl]; simpl.
  - intros [= <-]. eauto.
  - repeat case_match; simpl; intros [= <-]; eauto.
Qed.

(** The loop stops at the first token that does not parse, with the error
    of that token and without the identifiers gathered before it. *)
Lemma parseTokens_first_bad acc good bad rest e :
  Forall (fun t => (strconv.ParseInt t).2 = None) good ->
  (strconv.ParseInt bad).2 = Some e ->
  parseTokens acc (good ++ bad :: rest) = ([], Some e).
Proof.
  intros Hgood Hbad. revert acc.
  induction Hgood as [|t good Ht _ IH]; intros acc; simpl.
  - destruct (strconv.ParseInt bad) as [id err]. simpl in Hbad. subst err. reflexivity.
  - destruct (strconv.ParseInt t) as [id err]. simpl in Ht. subst err. apply IH.
Qed.

Lemma parseTokens_all_good acc toks :
  Forall (fun t => (strconv.ParseInt t).2 = None) toks ->
  parseTokens acc toks = (acc ++ map (fun t => (strconv.ParseInt t).1) toks, None)%list.
Proof.
  intros Hgood. revert acc.
  induction Hgood as [|t toks Ht _ IH]; intros acc; simpl.
  - rewrite app_nil_r. reflexivity.
  - destruct (strconv.ParseInt t) as [id err]. simpl in *. subst err.
    rewrite IH, <- app_assoc. reflexivity.
Qed.

Lemma ParseInt_rejects s :
  decimalInt64 s = None <-> (strconv.ParseInt s).2 <> None.
Proof.
  pose proof (ParseInt_decimalInt64 s) as Hs.
  destruct (decimalInt64 s) as [z|].
  - rewrite Hs. simpl. split; [discriminate|congruence].
  - split; [intros _; exact Hs|reflexivity].
Qed.

(** Among tokens of which one is no decimal signed 64-bit integer, the loop
    fails on the first such token. *)
Lemma parseTokens_bad_token toks t :
  t ∈ toks -> decimalInt64 t = None ->
  exists bad cause,
    bad ∈ toks
    /\ decimalInt64 bad = None
    /\ parseTokens [] toks = ([], Some (NumError "ParseInt" bad cause)).
Proof.
  intros Hin Hbad.
  assert (Hfirst : exists good bad rest,
             toks = (good ++ bad :: rest)%list
             /\ Forall (fun t => (strconv.ParseInt t).2 = None) good
             /\ decimalInt64 bad = None).
  { induction toks as [|t0 toks IH]; [by apply elem_of_nil in Hin|].
    destruct (decimalInt64 t0) as [z|] eqn:Ht0.
    - apply elem_of_cons in Hin as [->|Hin]; [congruence|].
      destruct (IH Hin) as (good & bad & rest & -> & Hgood & Hb).
      exists (t0 :: good), bad, rest. split; [reflexivity|]. split; [|exact Hb].
      constructor; [|exact Hgood].
      pose proof (ParseInt_decimalInt64 t0) as Hs. rewrite Ht0 in Hs. by rewrite Hs.
    - exists [], t0, toks. done. }
  destruct Hfirst as (good & bad & rest & -> & Hgood & Hb).
  destruct (strconv.ParseInt bad).2 as [e|] eqn:He;
    [|by apply ParseInt_rejects in Hb].
  destruct (ParseInt_error _ _ He) as [cause ->].
  exists bad, cause. split; [|split; [exact Hb|]].
  - apply elem_of_app. right. apply elem_of_cons. by left.
  - apply parseTokens_first_bad; assumption.
Qed.

(** *** The scanner and the lines of the file *)

Lemma scanPieces_error ps e : (bufio.scanPieces ps).2 = Some e -> e = ErrTooLong.
Proof.
  induction ps as [|p ps IH]; simpl; [discriminate|].
  destruct (bufio.tooLong p); [by intros [= <-]|].
  destruct ps as [|q ps]; [discriminate|].
  destruct (bufio.scanPieces (q :: ps)) as [toks err]. exact IH.
Qed.

(** A scan that stops on no error has delivered every line. *)
Lemma scanPieces_complete ps :
  (bufio.scanPieces ps).2 = None ->
  (bufio.scanPieces ps).1 = bufio.dropCR <$> textLines ps.
Proof.
  induction ps as [|p ps IH]; simpl; [reflexivity|].
  destruct (bufio.tooLong p); [discriminate|].
  destruct ps as [|q ps]; [by destruct p|].
  destruct (bufio.scanPieces (q :: ps)) as [toks err]. simpl in *.
  intros Herr. rewrite (IH Herr). reflexivity.
Qed.

(** It stops on no error when every line fits the buffer. *)
Lemma scanPieces_short ps :
  Forall (fun p => bufio.tooLong p = false) ps -> (bufio.scanPieces ps).2 = None.
Proof.
  induction 1 as [|p ps Hp _ IH]; simpl; [reflexivity|].
  rewrite Hp. destruct ps as [|q ps]; [reflexivity|].
  destruct (bufio.scanPieces (q :: ps)) as [toks err]. exact IH.
Qed.

(** So for a file without a line of 64 KiB or more the tokens of the scan
    are the lines of the file. *)
Lemma scanFile_short_lines f :
  Forall (fun p => bufio.tooLong p = false) (bufio.pieces (os.contents f)) ->
  (scanFile (Some f)).1 = fileLines (os.contents f).
Proof.
  intros Hshort. unfold scanFile, fileLines.
  pose proof (scanPieces_complete _ (scanPieces_short _ Hshort)) as Hc.
  destruct (bufio.scanPieces (bufio.pieces (os.contents f))) as [toks err].
  exact Hc.
Qed.

(** The scan and the loop over the lines, [goodLine] by [goodLine]: the
    loop fails at the first line that is no number, with the error of
    ParseInt for it; the scan stops at the first line that is too long,
    and when the loop has gone through the lines before it that is the
    error left. *)
Lemma scan_then_parse ps : forall acc,
  match parseTokens acc (bufio.scanPieces ps).1 with
  | (ids, Some e) =>
      ids = []
      /\ exists good bad rest cause,
           textLines ps = (good ++ bad :: rest)%list
           /\ Forall goodLine good
           /\ bufio.tooLong bad = false
           /\ decimalInt64 (bufio.dropCR bad) = None
           /\ e = NumError "ParseInt" (bufio.dropCR bad) cause
  | (ids, None) =>
      match (bufio.scanPieces ps).2 with
      | Some e =>
          e = ErrTooLong
          /\ exists good long rest,
               textLines ps = (good ++ long :: rest)%list
               /\ Forall goodLine good
               /\ bufio.tooLong long = true
      | None => True
      end
  end.
Proof.
  induction ps as [|p ps IH]; intros acc; [exact I|].
  cbn [bufio.scanPieces textLines].
  destruct (bufio.tooLong p) eqn:Hp.
  - cbn [fst snd parseTokens]. split; [reflexivity|].
    destruct p as [|c p]; [discriminate Hp|].
    destruct ps as [|q ps];
      [exists [], (String c p), []|exists [], (String c p), (textLines (q :: ps))];
      (split; [reflexivity|split; [constructor|exact Hp]]).
  - assert (Hfirst :
      match parseTokens acc [bufio.dropCR p] with
      | (ids, Some e) =>
          ids = []
          /\ exists cause,
               decimalInt64 (bufio.dropCR p) = None
               /\ e = NumError "ParseInt" (bufio.dropCR p) cause
      | (ids, None) =>
          decimalInt64 (bufio.dropCR p) <> None
          /\ forall toks, parseTokens acc (bufio.dropCR p :: toks)
                          = parseTokens ids toks
      end).
    { cbn [parseTokens].
      pose proof (ParseInt_decimalInt64 (bufio.dropCR p)) as Hd.
      pose proof (ParseInt_error (bufio.dropCR p)) as He.
      destruct (decimalInt64 (bufio.dropCR p)) as [z|].
      - rewrite Hd. split; [discriminate|]. intros toks. reflexivity.
      - destruct (strconv.ParseInt (bufio.dropCR p)) as [id [e|]]; [|done].
        split; [reflexivity|]. destruct (He e eq_refl) as [cause ->]. eauto. }
    destruct ps as [|q ps].
    + destruct p as [|c p]; [exact I|]. cbn [fst snd].
      destruct (parseTokens acc [bufio.dropCR (String c p)]) as [ids [e|]]; [|exact I].
      destruct Hfirst as (-> & cause & Hd & ->). split; [reflexivity|].
      exists [], (String c p), [], cause. repeat split; try assumption. constructor.
    + destruct (bufio.scanPieces (q :: ps)) as [toks err] eqn:Hscan.
      cbn [fst snd] in *.
      destruct (parseTokens acc [bufio.dropCR p]) as [ids1 [e1|]] eqn:H1.
      * destruct Hfirst as (-> & cause & Hd & ->).
        cbn [parseTokens] in H1 |- *.
        destruct (strconv.ParseInt (bufio.dropCR p)) as [id [e|]]; [|discriminate].
        injection H1 as ->. split; [reflexivity|].
        exists [], p, (textLines (q :: ps)), cause.
        repeat split; try assumption. constructor.
      * destruct Hfirst as [Hd Hstep]. rewrite Hstep.
        specialize (IH ids1).
        assert (Hgood : goodLine p) by (split; assumption).
        destruct (parseTokens ids1 toks) as [ids [e|]].
        -- destruct IH as (-> & good & bad & rest & cause & -> & Hg & Hb).
           split; [reflexivity|]. exists (p :: good), bad, rest, cause.
           split; [reflexivity|]. split; [by constructor|exact Hb].
        -- destruct err as [e|]; [|exact I].
           destruct IH as (-> & good & long & rest & -> & Hg & Hl).
           split; [reflexivity|]. exists (p :: good), long, rest.
           split; [reflexivity|]. split; [by constructor|exact Hl].
Qed.

(** C6 (as the code has it). A subscriber file with a line that is no
    decimal signed 64-bit integer is never listed, and no identifier comes
    with the error.  The error is the [*strconv.NumError] of ParseInt for
    the first such line (the line without a carriage return at its end),
    the lines before it being numbers of less than 64 KiB; or, when a line
    of 64 KiB or more comes first, the lines before it being numbers, it is
    the [bufio.ErrTooLong] of the scanner. *)
Theorem getSubscribers_corrupt_file fsys path f l :
  fsys path = os.Present f ->
  l ∈ fileLines (os.contents f) ->
  decimalInt64 l = None ->
  exists e,
    getSubscribers fsys path = ([], Some e, [Open path])
    /\ ((exists good bad rest cause,
           textLines (bufio.pieces (os.contents f)) = (good ++ bad :: rest)%list
           /\ Forall goodLine good
           /\ bufio.tooLong bad = false
           /\ decimalInt64 (bufio.dropCR bad) = None
           /\ e = NumError "ParseInt" (bufio.dropCR bad) cause)
        \/ (exists good long rest,
              textLines (bufio.pieces (os.contents f)) = (good ++ long :: rest)%list
              /\ Forall goodLine good
              /\ bufio.tooLong long = true
              /\ e = ErrTooLong)).
Proof.
  intros Hf Hin Hbad.
  unfold getSubscribers, os.Open. rewrite Hf. unfold scanFile, fileLines in *.
  pose proof (scanPieces_complete (bufio.pieces (os.contents f))) as Hc.
  pose proof (scan_then_parse (bufio.pieces (os.contents f)) []) as Hsp.
  destruct (bufio.scanPieces (bufio.pieces (os.contents f))) as [toks err].
  cbn [fst snd] in Hc, Hsp. cbv beta iota.
  destruct (parseTokens [] toks) as [ids [e|]] eqn:Hp.
  - destruct Hsp as (_ & good & bad & rest & cause & Hl & Hg & Hs & Hd & ->).
    eexists. split; [reflexivity|]. left. exists good, bad, rest, cause. done.
  - destruct err as [e|].
    + destruct Hsp as (-> & good & long & rest & Hl & Hg & Hlong).
      eexists. split; [reflexivity|]. right. exists good, long, rest. done.
    + exfalso. rewrite <- (Hc eq_refl) in Hin.
      destruct (parseTokens_bad_token toks l Hin Hbad) as (bad & cause & _ & _ & Hq).
      rewrite Hq in Hp. discriminate.
Qed.

Lemma getSubscribers_corrupt_file_witness :
  exists e,
    getSubscribers (oneFile "subs" (textFile "5
six
7
")) "subs" = ([], Some e, [Open "subs"])
    /\ ((exists good bad rest cause,
           textLines (bufio.pieces "5
six
7
") = (good ++ bad :: rest)%list
           /\ Forall goodLine good
           /\ bufio.tooLong bad = false
           /\ decimalInt64 (bufio.dropCR bad) = None
           /\ e = NumError "ParseInt" (bufio.dropCR bad) cause)
        \/ (exists good long rest,
              textLines (bufio.pieces "5
six
7
") = (good ++ long :: rest)%list
              /\ Forall goodLine good
              /\ bufio.tooLong long = true
              /\ e = ErrTooLong)).
Proof.
  apply (getSubscribers_corrupt_file (oneFile "subs" (textFile "5
six
7
")) "subs" {| os.contents := "5
six
7
"; os.readErr := None |} "six").
  - reflexivity.
  - vm_compute. apply list_elem_of_In. simpl. tauto.
  - vm_compute. reflexivity.
Defined.

(** C6 fails as stated: in a file whose first line is 64 KiB of zeros and
    whose last line is no number, the listing fails with the scanner's
    [bufio.ErrTooLong], which is no error of ParseInt. *)
Lemma bad_line_behind_long_line :
  let data := zeros (Z.to_nat 65536) ++ "
six
" in
  last (fileLines data) = Some "six"
  /\ decimalInt64 "six" = None
  /\ getSubscribers (oneFile "subs" (textFile data)) "subs"
     = ([], Some ErrTooLong, [Open "subs"])
  /\ forall bad cause, ErrTooLong <> NumError "ParseInt" bad cause.
Proof.
  vm_compute. repeat split; try reflexivity. intros bad cause. discriminate.
Qed.

(** Whatever the error, no identifier comes with it. *)
Lemma getSubscribers_error_no_list fsys path ids e evs :
  getSubscribers fsys path = (ids, Some e, evs) -> ids = [].
Proof.
  unfold getSubscribers. repeat case_match; intros [= <- ? ?]; reflexivity || discriminate.
Qed.

(** ** The fan-out *)

(** The loop from send number [k0]: while the sends succeed it goes on; at
    the first one that fails it returns. *)
Lemma notifyAll_from bot b ids k0 k :
  (forall j idj, (j < k)%nat -> ids !! j = Some idj ->
                 bot (k0 + j)%nat (NewMessage idj b) = None) ->
  (ids !! k = None ->
   notifyAll bot k0 b ids = ((fun id => Send (NewMessage id b) None) <$> ids, None))
  /\ (forall id e,
        ids !! k = Some id -> bot (k0 + k)%nat (NewMessage id b) = Some e ->
        notifyAll bot k0 b ids
        = ((((fun i => Send (NewMessage i b) None) <$> take k ids)
             ++ [Send (NewMessage id b) (Some e)])%list, Some e)).
Proof.
  revert k0 k. induction ids as [|id0 ids IH]; intros k0 k Hok.
  - split; [reflexivity|]. intros id e Hk. discriminate.
  - destruct k as [|k].
    + split; [discriminate|]. intros id e [= <-] Hfail. simpl.
      rewrite Nat.add_0_r in Hfail. rewrite Hfail. reflexivity.
    + assert (H0 : bot k0 (NewMessage id0 b) = None).
      { specialize (Hok 0%nat id0). rewrite Nat.add_0_r in Hok. apply Hok; [lia|reflexivity]. }
      assert (Hok' : forall j idj, (j < k)%nat -> ids !! j = Some idj ->
                                   bot (S k0 + j)%nat (NewMessage idj b) = None).
      { intros j idj Hj Hl. specialize (Hok (S j) idj).
        replace (S k0 + j)%nat with (k0 + S j)%nat by lia. apply Hok; [lia|exact Hl]. }
      destruct (IH (S k0) k Hok') as [IHall IHfail].
      split.
      * intros Hnone. simpl in *. rewrite H0, (IHall Hnone). reflexivity.
      * intros id e Hk Hfail. simpl in *. rewrite H0.
        replace (k0 + S k)%nat with (S k0 + k)%nat in Hfail by lia.
        rewrite (IHfail id e Hk Hfail). reflexivity.
Qed.

Lemma attempts_sent (b : block) (ids : list Z) :
  attempts ((fun id => Send (NewMessage id b) None) <$> ids)
  = (fun id => NewMessage id b) <$> ids.
Proof.
  unfold attempts. induction ids as [|id ids IH]; [reflexivity|].
  cbn. f_equal. exact IH.
Qed.

Lemma failures_sent (b : block) (ids : list Z) :
  failures ((fun id => Send (NewMessage id b) None) <$> ids) = [].
Proof.
  unfold failures. induction ids as [|id ids IH]; [reflexivity|].
  cbn. exact IH.
Qed.

(** C3 (as the code has it). The fan-out sends to the subscribers in order
    and returns at the first send that fails: the subscribers up to and
    including that one are attempted, those after it are not, and the
    error returned is the error of that send.  When no send fails every
    subscriber is attempted and no error is returned. *)
Theorem notifyAll_stops_at_first_failure bot b ids k :
  (forall j idj, (j < k)%nat -> ids !! j = Some idj ->
                 bot j (NewMessage idj b) = None) ->
  let r := notifyAll bot 0%nat b ids in
  (ids !! k = None ->
   r.2 = None
   /\ attempts r.1 = (fun id => NewMessage id b) <$> ids
   /\ failures r.1 = [])
  /\ (forall id e,
        ids !! k = Some id -> bot k (NewMessage id b) = Some e ->
        r.2 = Some e
        /\ attempts r.1 = (fun i => NewMessage i b) <$> take (S k) ids
        /\ failures r.1 = [(id, e)]).
Proof.
  intros Hok r. subst r.
  destruct (notifyAll_from bot b ids 0%nat k Hok) as [Hall Hfail].
  split.
  - intros Hnone. rewrite (Hall Hnone). simpl.
    split; [reflexivity|]. split; [apply attempts_sent|apply failures_sent].
  - intros id e Hk He. rewrite (Hfail id e Hk He). simpl.
    split; [reflexivity|]. split.
    + unfold attempts. rewrite omap_app. fold (attempts ((fun i => Send (NewMessage i b) None) <$> take k ids)).
      rewrite attempts_sent. simpl.
      rewrite (take_S_r ids k id Hk), fmap_app. reflexivity.
    + unfold failures. rewrite omap_app.
      fold (failures ((fun i => Send (NewMessage i b) None) <$> take k ids)).
      rewrite failures_sent. reflexivity.
Qed.

Lemma notifyAll_stops_at_first_failure_witness :
  let b := {| height := 100; ts := 1700000000000 |} in
  let r := notifyAll (failingFor 2) 0%nat b [1; 2; 3] in
  ([1; 2; 3] !! 1%nat = None ->
   r.2 = None
   /\ attempts r.1 = (fun id => NewMessage id b) <$> [1; 2; 3]
   /\ failures r.1 = [])
  /\ (forall id e,
        [1; 2; 3] !! 1%nat = Some id -> failingFor 2 1%nat (NewMessage id b) = Some e ->
        r.2 = Some e
        /\ attempts r.1 = (fun i => NewMessage i b) <$> take 2 [1; 2; 3]
        /\ failures r.1 = [(id, e)]).
Proof.
  apply (notifyAll_stops_at_first_failure (failingFor 2)
           {| height := 100; ts := 1700000000000 |} [1; 2; 3] 1%nat).
  intros j idj Hj Hl. destruct j as [|j]; [|lia].
  simpl in Hl. injection Hl as <-. reflexivity.
Defined.

(** C3 fails as stated: of three subscribers with the send to the second
    failing, the third is not attempted, though a send to it would have
    succeeded. *)
Lemma third_subscriber_not_attempted :
  let b := {| height := 100; ts := 1700000000000 |} in
  let r := notifyAll (failingFor 2) 0%nat b [1; 2; 3] in
  map ChatID (attempts r.1) = [1; 2]
  /\ ~ In (NewMessage 3 b) (attempts r.1)
  /\ (forall k, failingFor 2 k (NewMessage 3 b) = None)
  /\ r.2 = Some (SendError "Forbidden").
Proof.
  vm_compute. repeat split; try reflexivity.
  intros [Hin|[Hin|[]]]; discriminate Hin.
Qed.

(** ** The pool API client *)

(** *** float64 to integer *)

(** Rounding a fraction towards zero is the quotient that rounds towards
    zero. *)
Lemma Qtruncate_quot n d : Qtruncate (n # d) = Z.quot n (Z.pos d).
Proof.
  unfold Qtruncate, Qceiling, Qfloor. simpl.
  destruct (0 <=? n) eqn:Hn.
  - apply Z.leb_le in Hn. symmetry. apply Z.quot_div_nonneg; lia.
  - apply Z.leb_gt in Hn.
    rewrite <- (Z.opp_involutive n) at 2. rewrite Z.quot_opp_l by lia.
    f_equal. symmetry. apply Z.quot_div_nonneg; lia.
Qed.

(** The shifts of [truncate] give the rational the float64 stands for,
    rounded towards zero. *)
Lemma truncate_Qtruncate f z q :
  truncate f = Some z -> rational f = Some q -> z = Qtruncate q.
Proof.
  destruct f as [s|s| |s m e]; simpl; try discriminate.
  - intros [= <-] [= <-]. reflexivity.
  - intros [= <-] [= <-].
    assert (Hsm : (if s then Z.neg m else Z.pos m) = if s then - Z.pos m else Z.pos m)
      by (destruct s; reflexivity).
    destruct e as [|p|p]; rewrite Qtruncate_quot, Hsm.
    + rewrite Z.quot_1_r. reflexivity.
    + rewrite Z.quot_1_r, Z.shiftl_mul_pow2 by lia. destruct s; lia.
    + change (Z.shiftl (Z.pos m) (Z.neg p)) with (Z.shiftr (Z.pos m) (Z.pos p)).
      rewrite Z.shiftr_div_pow2, Pos2Z.inj_pow by lia.
      assert (Hq : Z.quot (Z.pos m) (2 ^ Z.pos p) = Z.pos m / 2 ^ Z.pos p)
        by (apply Z.quot_div_nonneg; lia).
      destruct s; [rewrite Z.quot_opp_l by lia|]; rewrite Hq; reflexivity.
Qed.

(** A number stands for a rational. *)
Lemma number_rational n : exists q, rational (float n) = Some q.
Proof.
  destruct n as [f Hf]. simpl. destruct f; simpl in *; eauto; discriminate.
Qed.

(** [int64(f)] is [f] without its fraction whenever that is an int64. *)
Lemma int64_of_float64_fits f q :
  rational f = Some q ->
  minInt64 <= Qtruncate q <= maxInt64 ->
  int64_of_float64 f = Qtruncate q.
Proof.
  intros Hq Hfits. unfold int64_of_float64.
  destruct (truncate f) as [z|] eqn:Hz.
  - rewrite (truncate_Qtruncate f z q Hz Hq).
    destruct (Z.leb_spec minInt64 (Qtruncate q)); [|lia].
    destruct (Z.leb_spec (Qtruncate q) maxInt64); [reflexivity|lia].
  - destruct f; discriminate.
Qed.

Example int64_of_float64_samples :
  int64_of_float64 (float64_of_Z 100) = 100
  /\ int64_of_float64 (binary_normalize 53 1024 201 (-1) false) = 100
  /\ int64_of_float64 (binary_normalize 53 1024 (-201) (-1) false) = -100
  /\ int64_of_float64 (float64_of_Z (2 ^ 53 + 1)) = 2 ^ 53
  /\ int64_of_float64 (float64_of_Z (2 ^ 63)) = minInt64.
Proof. vm_compute. repeat split; reflexivity. Qed.

(** C8 (as the code has it). The decoder comes first: when decoding the
    body into a slice of maps gives an error, the fetch fails with that
    error, whatever the first element holds.  When the body decodes, an
    empty slice, or a first element without a float64 under "height" or
    without one under "ts", makes the fetch fail with
    [errUnexpectedStructure] ("unexpected response structure"); and a first
    element with both makes it return a block: its height is the "height"
    value without its fraction, its time the "ts" value without its
    fraction as milliseconds since the epoch, as far as these are within
    int64. *)
Theorem fetchLastBlock_decoded net res blocks err :
  net blocksURL = http.Responded res ->
  http.bodyErr res = None ->
  json.Unmarshal (http.Body res) = (blocks, err) ->
  match err with
  | Some e => fetchLastBlock net = (block0, Some e, [Get blocksURL])
  | None =>
      ((blocks = []
        \/ exists first rest,
             blocks = first :: rest
             /\ ((forall n, first !! "height" <> Some (IFloat64 n))
                 \/ (forall n, first !! "ts" <> Some (IFloat64 n)))) ->
       fetchLastBlock net = (block0, Some errUnexpectedStructure, [Get blocksURL]))
      /\ (forall first rest h t,
            blocks = first :: rest ->
            first !! "height" = Some (IFloat64 h) ->
            first !! "ts" = Some (IFloat64 t) ->
            exists b qh qt,
              fetchLastBlock net = (b, None, [Get blocksURL])
              /\ rational (float h) = Some qh
              /\ rational (float t) = Some qt
              /\ (minInt64 <= Qtruncate qh <= maxInt64 -> height b = Qtruncate qh)
              /\ (minInt64 <= Qtruncate qt <= maxInt64 ->
                  ts b = time.UnixMilli (Qtruncate qt)))
  end.
Proof.
  intros Hnet Hbody Hdec.
  unfold fetchLastBlock, http.Get, io.ReadAll. rewrite Hnet, Hbody, Hdec.
  destruct err as [e|]; [reflexivity|].
  split.
  - intros [->|(first & rest & -> & Hbad)]; [reflexivity|].
    destruct (first !! "height") as [[| |h| | |]|] eqn:Hh; try reflexivity.
    destruct Hbad as [Hbad|Hbad]; [by destruct (Hbad h)|].
    destruct (first !! "ts") as [[| |t| | |]|] eqn:Ht; try reflexivity.
    by destruct (Hbad t).
  - intros first rest h t -> Hh Ht. rewrite Hh, Ht.
    destruct (number_rational h) as [qh Hqh], (number_rational t) as [qt Hqt].
    eexists _, qh, qt. split; [reflexivity|]. split; [exact Hqh|]. split; [exact Hqt|].
    cbn [height ts]. split; intros Hfits.
    + apply int64_of_float64_fits; assumption.
    + unfold time.UnixMilli. apply int64_of_float64_fits; assumption.
Qed.

Lemma fetchLastBlock_decoded_witness :
  let net := answering 200 (json.Array [blockRecord 100 1700000000000]) in
  let blocks : list (gmap string iface) :=
    [json.fields [("height", jsonInt 100); ("ts", jsonInt 1700000000000)]] in
  ((blocks = []
    \/ exists first rest,
         blocks = first :: rest
         /\ ((forall n, first !! "height" <> Some (IFloat64 n))
             \/ (forall n, first !! "ts" <> Some (IFloat64 n)))) ->
   fetchLastBlock net = (block0, Some errUnexpectedStructure, [Get blocksURL]))
  /\ (forall first rest h t,
        blocks = first :: rest ->
        first !! "height" = Some (IFloat64 h) ->
        first !! "ts" = Some (IFloat64 t) ->
        exists b qh qt,
          fetchLastBlock net = (b, None, [Get blocksURL])
          /\ rational (float h) = Some qh
          /\ rational (float t) = Some qt
          /\ (minInt64 <= Qtruncate qh <= maxInt64 -> height b = Qtruncate qh)
          /\ (minInt64 <= Qtruncate qt <= maxInt64 ->
              ts b = time.UnixMilli (Qtruncate qt))).
Proof.
  apply (fetchLastBlock_decoded
           (answering 200 (json.Array [blockRecord 100 1700000000000]))
           {| http.StatusCode := 200;
              http.Body := json.Text (json.Array [blockRecord 100 1700000000000]);
              http.bodyErr := None |}
           [json.fields [("height", jsonInt 100); ("ts", jsonInt 1700000000000)]]
           None).
  - reflexivity.
  - reflexivity.
  - reflexivity.
Defined.

(** C8 fails as stated: a response whose first element is a well-formed
    block and whose second element is a number is no block but the type
    error of the decoder; and a first element that is a number, or whose
    "height" is a literal that float64 cannot hold, lacks a numeric
    "height" and yet what comes back is that type error, not
    [errUnexpectedStructure]. *)
Lemma well_formed_first_element_type_error :
  fetchLastBlock (answering 200 (json.Array [blockRecord 100 1700000000000; jsonInt 5]))
  = (block0, Some (UnmarshalTypeError "number"), [Get blocksURL])
  /\ fetchLastBlock (answering 200 (json.Array [jsonInt 5]))
     = (block0, Some (UnmarshalTypeError "number"), [Get blocksURL])
  /\ fetchLastBlock (answering 200 (json.Array
       [json.Object [("height", json.Huge "1e400"); ("ts", jsonInt 1700000000000)]]))
     = (block0, Some (UnmarshalTypeError "number 1e400"), [Get blocksURL])
  /\ UnmarshalTypeError "number" <> errUnexpectedStructure
  /\ UnmarshalTypeError "number 1e400" <> errUnexpectedStructure.
Proof. vm_compute. repeat split; reflexivity || discriminate. Qed.

Example fetchLastBlock_sample :
  fetchLastBlock (answering 200 (json.Array [blockRecord 100 1700000000000]))
  = ({| height := 100; ts := 1700000000000 |}, None, [Get blocksURL]).
Proof. vm_compute. reflexivity. Qed.

Example fetchLastBlock_empty_array :
  fetchLastBlock (answering 200 (json.Array []))
  = (block0, Some errUnexpectedStructure, [Get blocksURL]).
Proof. vm_compute. reflexivity. Qed.

Example fetchLastBlock_height_as_string :
  fetchLastBlock (answering 200 (json.Array
    [json.Object [("height", json.Str "100"); ("ts", jsonInt 1700000000000)]]))
  = (block0, Some errUnexpectedStructure, [Get blocksURL]).
Proof. vm_compute. reflexivity. Qed.

Example fetchLastBlock_no_ts :
  fetchLastBlock (answering 200 (json.Array
    [json.Object [("height", jsonInt 100)]]))
  = (block0, Some errUnexpectedStructure, [Get blocksURL]).
Proof. vm_compute. reflexivity. Qed.

(** C9 (as the code has it). A request that gets no response (connection
    refused, timeout) makes the fetch fail with the [*url.Error] of
    [http.Get], and a body that cannot be read makes it fail with the read
    error; neither is [errUnexpectedStructure].  The status code of a
    response is not looked at: under any other code the fetch gives what it
    gives under this one. *)
Theorem fetchLastBlock_transport net :
  match net blocksURL with
  | http.Failed cause =>
      fetchLastBlock net = (block0, Some (UrlError "Get" blocksURL cause), [Get blocksURL])
      /\ (fetchLastBlock net).1.2 <> Some errUnexpectedStructure
  | http.Responded res =>
      (forall msg, http.bodyErr res = Some msg ->
         fetchLastBlock net = (block0, Some (ReadError msg), [Get blocksURL])
         /\ (fetchLastBlock net).1.2 <> Some errUnexpectedStructure)
      /\ (forall code,
            fetchLastBlock (fun _ => http.Responded (http.withStatus code res))
            = fetchLastBlock net)
  end.
Proof.
  unfold fetchLastBlock, http.Get, io.ReadAll.
  destruct (net blocksURL) as [cause|res].
  - split; [reflexivity|discriminate].
  - split.
    + intros msg Hmsg. rewrite Hmsg. split; [reflexivity|discriminate].
    + intros code. reflexivity.
Qed.

(** C9 fails as stated: a response of status 500 whose body is an empty
    array fails with [errUnexpectedStructure], the error of a malformed
    payload, and one of status 503 that carries a block is no failure. *)
Lemma non_2xx_is_not_a_fetch_error :
  fetchLastBlock (answering 500 (json.Array []))
  = (block0, Some errUnexpectedStructure, [Get blocksURL])
  /\ fetchLastBlock (answering 503 (json.Array [blockRecord 100 1700000000000]))
     = ({| height := 100; ts := 1700000000000 |}, None, [Get blocksURL]).
Proof. vm_compute. split; reflexivity. Qed.

(** ** Runs of the worker *)

(** While every fetch fails or brings the acknowledged height, the worker
    changes nothing and sends nothing, however many rounds go by. *)
Lemma worker_same_height_silent ws path g :
  Forall (fun w => forall b fetched,
            fetchLastBlock (net w) = (b, None, fetched) ->
            height b = height (lastBlockChecked g)) ws ->
  (worker ws path g).1 = g
  /\ attempts (worker ws path g).2 = []
  /\ opens (worker ws path g).2 = []
  /\ assignments (worker ws path g).2 = [].
Proof.
  induction 1 as [|w ws Hw _ IH]; simpl; [done|].
  pose proof (fetchLastBlock_events (net w)) as Hev.
  assert (Hstep : exists err,
             tryNotifyIfNewBlock w path g = (g, err, [Get blocksURL])).
  { unfold tryNotifyIfNewBlock.
    destruct (fetchLastBlock (net w)) as [[b [e|]] fetched] eqn:Hf; simpl in Hev; subst fetched.
    - eauto.
    - specialize (Hw b _ eq_refl). apply isNewEvent_false in Hw. rewrite Hw. eauto. }
  destruct Hstep as [err ->].
  destruct (worker ws path g) as [g' rest]. simpl in *.
  destruct IH as (-> & Ha & Ho & Hs).
  split; [reflexivity|].
  unfold attempts, opens, assignments in *.
  destruct err; simpl; rewrite ?Ha, ?Ho, ?Hs; done.
Qed.

(** A line of 64 KiB stops the scanner before any line is parsed. *)
Example getSubscribers_line_too_long :
  getSubscribers (oneFile "subs" (textFile (zeros (Z.to_nat 65536) ++ "
six
"))) "subs" = ([], Some ErrTooLong, [Open "subs"])
  /\ getSubscribers (oneFile "subs" (textFile (zeros (Z.to_nat 65535) ++ "
7
"))) "subs" = ([0; 7], None, [Open "subs"]).
Proof. vm_compute. split; reflexivity. Qed.

(** ** Saving subscribers *)

Example FormatInt_samples :
  itoa.FormatInt 0 = "0" /\ itoa.FormatInt 42 = "42" /\ itoa.FormatInt (-7) = "-7"
  /\ itoa.FormatInt minInt64 = "-9223372036854775808"
  /\ itoa.FormatInt maxInt64 = "9223372036854775807".
Proof. vm_compute. repeat split. Qed.

Example save_then_list :
  getSubscribers (saveAll (fun _ => os.Absent) [42; -7; 42] "subs") "subs"
  = ([42; -7; 42], None, [Open "subs"]).
Proof. vm_compute. reflexivity. Qed.

(** *** Texts *)

Lemma append_cons c (a b : string) : String c a ++ b = String c (a ++ b).
Proof. reflexivity. Qed.

Lemma append_nil_l (b : string) : EmptyString ++ b = b.
Proof. reflexivity. Qed.

Lemma append_nil_r (a : string) : a ++ EmptyString = a.
Proof. induction a as [|c a IH]; [reflexivity|]. by rewrite append_cons, IH. Qed.

Lemma append_assoc (a b c : string) : (a ++ b) ++ c = a ++ (b ++ c).
Proof. induction a as [|x a IH]; [reflexivity|]. by rewrite !append_cons, IH. Qed.

Lemma length_append (a b : string) :
  String.length (a ++ b) = (String.length a + String.length b)%nat.
Proof. induction a as [|x a IH]; [reflexivity|]. rewrite append_cons. simpl. by rewrite IH. Qed.

Lemma digitsOnly_append (a b : string) :
  digitsOnly (a ++ b) = digitsOnly a && digitsOnly b.
Proof.
  induction a as [|x a IH]; [reflexivity|].
  rewrite append_cons. simpl. rewrite IH. apply andb_assoc.
Qed.

(** *** FormatInt and ParseInt *)

Lemma digitChar_val d :
  0 <= d <= 9 -> strconv.byte_val (itoa.digitChar d) = 48 + d.
Proof.
  intros Hd.
  assert (Hcases : d = 0 \/ d = 1 \/ d = 2 \/ d = 3 \/ d = 4 \/ d = 5 \/ d = 6
                   \/ d = 7 \/ d = 8 \/ d = 9) by lia.
  repeat (destruct Hcases as [->|Hcases]; [reflexivity|]). subst d. reflexivity.
Qed.

Lemma digitChar_isDigit d : 0 <= d <= 9 -> isDigit (itoa.digitChar d) = true.
Proof.
  intros Hd. unfold isDigit. rewrite (digitChar_val d Hd).
  apply andb_true_iff. split; apply Z.leb_le; lia.
Qed.

(** The digits [formatBits] writes: one at least, [fuel] at most, and they
    write [u]. *)
Lemma formatBits_digits fuel : forall u acc,
  (0 < fuel)%nat -> 0 <= u < 10 ^ Z.of_nat fuel ->
  exists d,
    itoa.formatBits fuel u acc = d ++ acc
    /\ d <> EmptyString
    /\ digitsOnly d = true
    /\ (String.length d <= fuel)%nat
    /\ forall a rest,
         digitsValue a (d ++ rest) = digitsValue (a * 10 ^ Z.of_nat (String.length d) + u) rest.
Proof.
  induction fuel as [|fuel IH]; intros u acc Hfuel Hu; [lia|].
  simpl itoa.formatBits.
  assert (Hmod : 0 <= u mod 10 <= 9) by (pose proof (Z.mod_pos_bound u 10); lia).
  pose proof (digitChar_isDigit _ Hmod) as Hdig.
  pose proof (digitChar_val _ Hmod) as Hval.
  set (c := itoa.digitChar (u mod 10)) in *.
  destruct (u / 10 =? 0) eqn:Hq.
  - apply Z.eqb_eq in Hq.
    exists (String c EmptyString).
    split; [reflexivity|]. split; [discriminate|].
    split; [simpl; rewrite Hdig; reflexivity|]. split; [simpl; lia|].
    intros a rest. rewrite append_cons, append_nil_l. simpl. rewrite Hdig, Hval. f_equal.
    pose proof (Z.div_mod u 10). lia.
  - apply Z.eqb_neq in Hq.
    assert (Hfuel' : (0 < fuel)%nat).
    { destruct fuel; [|lia]. simpl in Hu.
      assert (u / 10 = 0) by (apply Z.div_small; lia). lia. }
    assert (Hu' : 0 <= u / 10 < 10 ^ Z.of_nat fuel).
    { split; [apply Z.div_pos; lia|].
      apply Z.div_lt_upper_bound; [lia|].
      rewrite Nat2Z.inj_succ, Z.pow_succ_r in Hu; lia. }
    destruct (IH (u / 10) (String c acc) Hfuel' Hu')
      as (d & Hd & Hne & Hall & Hlen & Hv).
    exists (d ++ String c EmptyString).
    assert (Hlen' : String.length (d ++ String c EmptyString) = S (String.length d)).
    { rewrite length_append. simpl. lia. }
    split; [|split; [|split; [|split]]].
    + rewrite Hd, append_assoc. reflexivity.
    + destruct d; discriminate.
    + rewrite digitsOnly_append, Hall. simpl. rewrite Hdig. reflexivity.
    + rewrite Hlen'. lia.
    + intros a rest. rewrite Hlen', append_assoc, append_cons, append_nil_l.
      rewrite Hv. simpl. rewrite Hdig, Hval. f_equal.
      rewrite Nat2Z.inj_succ, Z.pow_succ_r by lia.
      pose proof (Z.div_mod u 10). lia.
Qed.

(** A digit is no sign. *)
Lemma isDigit_no_sign c :
  isDigit c = true -> Ascii.eqb c "+"%char = false /\ Ascii.eqb c "-"%char = false.
Proof.
  intros Hc. split.
  - destruct (Ascii.eqb_spec c "+"%char) as [->|]; [discriminate Hc|reflexivity].
  - destruct (Ascii.eqb_spec c "-"%char) as [->|]; [discriminate Hc|reflexivity].
Qed.

(** The text of an int64 is a decimal signed 64-bit integer, and writes it. *)
Lemma decimalInt64_FormatInt z :
  minInt64 <= z <= maxInt64 -> decimalInt64 (itoa.FormatInt z) = Some z.
Proof.
  pose proof (eq_refl : minInt64 = -9223372036854775808) as Hmin.
  pose proof (eq_refl : maxInt64 = 9223372036854775807) as Hmaxi.
  intros Hz. unfold itoa.FormatInt.
  destruct (z <? 0) eqn:Hneg.
  - apply Z.ltb_lt in Hneg.
    destruct (formatBits_digits 20 (- z) EmptyString ltac:(lia)) as (d & -> & Hne & Hall & _ & Hv).
    { change (10 ^ Z.of_nat 20) with 100000000000000000000. lia. }
    rewrite append_nil_r. specialize (Hv 0 EmptyString).
    rewrite append_nil_r, Z.mul_0_l, Z.add_0_l in Hv.
    change (digitsValue (- z) EmptyString) with (Some (- z)) in Hv.
    unfold decimalInt64.
    change (Ascii.eqb "-" "+") with false. change (Ascii.eqb "-" "-") with true.
    cbv iota beta.
    destruct d as [|c d]; [done|]. rewrite Hv. cbv zeta.
    rewrite Z.opp_involutive.
    destruct (minInt64 <=? z) eqn:H1; [|apply Z.leb_gt in H1; lia].
    destruct (z <=? maxInt64) eqn:H2; [|apply Z.leb_gt in H2; lia].
    reflexivity.
  - apply Z.ltb_ge in Hneg.
    destruct (formatBits_digits 20 z EmptyString ltac:(lia)) as (d & -> & Hne & Hall & _ & Hv).
    { change (10 ^ Z.of_nat 20) with 100000000000000000000. lia. }
    rewrite append_nil_r. specialize (Hv 0 EmptyString).
    rewrite append_nil_r, Z.mul_0_l, Z.add_0_l in Hv.
    change (digitsValue z EmptyString) with (Some z) in Hv.
    destruct d as [|c d]; [done|].
    simpl in Hall. apply andb_true_iff in Hall as [Hc _].
    destruct (isDigit_no_sign c Hc) as [Hplus Hminus].
    unfold decimalInt64. rewrite Hplus, Hminus. cbv iota beta. rewrite Hv. cbv zeta.
    destruct (minInt64 <=? z) eqn:H1; [|apply Z.leb_gt in H1; lia].
    destruct (z <=? maxInt64) eqn:H2; [|apply Z.leb_gt in H2; lia].
    reflexivity.
Qed.

(** Round trip: what [FormatInt] writes for an int64, [ParseInt] reads back
    as that int64, without error. *)
Lemma ParseInt_FormatInt z :
  minInt64 <= z <= maxInt64 -> strconv.ParseInt (itoa.FormatInt z) = (z, None).
Proof.
  intros Hz. pose proof (ParseInt_decimalInt64 (itoa.FormatInt z)) as Hp.
  rewrite (decimalInt64_FormatInt z Hz) in Hp. exact Hp.
Qed.

(** *** The pieces of a text that grows *)

Lemma pieces_cons c data :
  bufio.pieces (String c data)
  = if Ascii.eqb c "010"%char then EmptyString :: bufio.pieces data
    else match bufio.pieces data with
         | [] => [String c EmptyString]
         | l :: ls => String c l :: ls
         end.
Proof.
  unfold bufio.pieces. simpl. destruct (bufio.cut data) as [l ls].
  destruct (Ascii.eqb c "010"%char); reflexivity.
Qed.

Lemma pieces_not_nil data : bufio.pieces data <> [].
Proof. unfold bufio.pieces. destruct (bufio.cut data). discriminate. Qed.

(** A text that is empty or ends in a newline has an empty last piece. *)
Lemma pieces_terminated data :
  newlineTerminated data = true -> exists ps, bufio.pieces data = (ps ++ [EmptyString])%list.
Proof.
  induction data as [|c data IH]; intros Hterm.
  - exists []. reflexivity.
  - rewrite pieces_cons. destruct data as [|c' data'].
    + simpl in Hterm. rewrite Hterm. exists [EmptyString]. reflexivity.
    + specialize (IH Hterm). destruct IH as [ps Hps]. rewrite Hps.
      destruct (Ascii.eqb c "010"%char).
      * exists (EmptyString :: ps). reflexivity.
      * destruct ps as [|p ps].
        -- exfalso. rewrite pieces_cons in Hps.
           pose proof (pieces_not_nil data') as Hne.
           destruct (Ascii.eqb c' "010"%char).
           ++ injection Hps as Hps. done.
           ++ destruct (bufio.pieces data'); [done|discriminate].
        -- exists (String c p :: ps). reflexivity.
Qed.

(** What is appended to such a text starts a piece of its own. *)
Lemma pieces_append a b : forall ps,
  bufio.pieces a = (ps ++ [EmptyString])%list ->
  bufio.pieces (a ++ b) = (ps ++ bufio.pieces b)%list.
Proof.
  induction a as [|c a IH]; intros ps Hps.
  - destruct ps as [|p [|q ps]]; try discriminate. reflexivity.
  - rewrite append_cons, pieces_cons. rewrite pieces_cons in Hps.
    destruct (Ascii.eqb c "010"%char).
    + destruct ps as [|p ps].
      * exfalso. injection Hps as Hps. by apply pieces_not_nil in Hps.
      * injection Hps as <- Hps. rewrite (IH ps Hps). reflexivity.
    + pose proof (pieces_not_nil a) as Hne.
      destruct (bufio.pieces a) as [|l ls] eqn:Ha; [done|].
      destruct ps as [|p ps]; [destruct ls; discriminate|].
      injection Hps as <- Hls.
      destruct ls as [|l' ls]; [destruct ps; discriminate|].
      assert (Hal : l :: l' :: ls = ((l :: ps) ++ [EmptyString])%list)
        by (simpl; rewrite Hls; reflexivity).
      rewrite (IH (l :: ps) Hal). reflexivity.
Qed.

(** A line and its newline are a piece, and an empty piece after it. *)
Lemma pieces_line l :
  oneLine l = true -> bufio.pieces (l ++ newline) = [l; EmptyString].
Proof.
  induction l as [|c l IH]; intros Hl; [reflexivity|].
  simpl in Hl. apply andb_true_iff in Hl as [Hc Hl]. apply andb_true_iff in Hc as [Hnl _].
  apply negb_true_iff in Hnl.
  rewrite append_cons, pieces_cons, Hnl, (IH Hl). reflexivity.
Qed.

Lemma dropCR_oneLine l : oneLine l = true -> bufio.dropCR l = l.
Proof.
  induction l as [|c l IH]; intros Hl; [reflexivity|].
  simpl in Hl. apply andb_true_iff in Hl as [Hc Hl]. apply andb_true_iff in Hc as [_ Hcr].
  apply negb_true_iff in Hcr.
  destruct l as [|c' l']; simpl.
  - rewrite Hcr. reflexivity.
  - f_equal. apply (IH Hl).
Qed.

Lemma newlineTerminated_append a l :
  newlineTerminated (a ++ l ++ newline) = true.
Proof.
  induction a as [|c a IH].
  - rewrite append_nil_l. induction l as [|c l IHl]; [reflexivity|].
    rewrite append_cons. simpl. destruct (l ++ newline) eqn:Hl; [|exact IHl].
    destruct l; discriminate.
  - rewrite append_cons. simpl. destruct (a ++ l ++ newline) eqn:Ha; [|exact IH].
    destruct a; [destruct l|]; discriminate.
Qed.

(** *** The text of an identifier *)

Lemma digitsOnly_oneLine d : digitsOnly d = true -> oneLine d = true.
Proof.
  induction d as [|c d IH]; intros Hd; [reflexivity|].
  simpl in *. apply andb_true_iff in Hd as [Hc Hd]. rewrite (IH Hd), andb_true_r.
  apply andb_true_iff. split; apply negb_true_iff.
  - destruct (Ascii.eqb_spec c "010"%char) as [->|]; [discriminate Hc|reflexivity].
  - destruct (Ascii.eqb_spec c "013"%char) as [->|]; [discriminate Hc|reflexivity].
Qed.

(** The text [FormatInt] writes is a sign at most and then digits: 21
    bytes at most, none of them a line terminator. *)
Lemma FormatInt_text z :
  minInt64 <= z <= maxInt64 ->
  oneLine (itoa.FormatInt z) = true
  /\ (String.length (itoa.FormatInt z) <= 21)%nat
  /\ itoa.FormatInt z <> EmptyString.
Proof.
  pose proof (eq_refl : minInt64 = -9223372036854775808) as Hmin.
  pose proof (eq_refl : maxInt64 = 9223372036854775807) as Hmaxi.
  intros Hz. unfold itoa.FormatInt.
  destruct (z <? 0) eqn:Hneg.
  - apply Z.ltb_lt in Hneg.
    destruct (formatBits_digits 20 (- z) EmptyString ltac:(lia)) as (d & -> & Hne & Hall & Hlen & _).
    { change (10 ^ Z.of_nat 20) with 100000000000000000000. lia. }
    rewrite append_nil_r. split; [|split; [simpl; lia|discriminate]].
    simpl. apply (digitsOnly_oneLine d Hall).
  - apply Z.ltb_ge in Hneg.
    destruct (formatBits_digits 20 z EmptyString ltac:(lia)) as (d & -> & Hne & Hall & Hlen & _).
    { change (10 ^ Z.of_nat 20) with 100000000000000000000. lia. }
    rewrite append_nil_r. split; [apply (digitsOnly_oneLine d Hall)|]. split; [lia|exact Hne].
Qed.

(** *** Listing after a save *)

Lemma tooLong_short l : (String.length l <= 21)%nat -> bufio.tooLong l = false.
Proof.
  intros Hl. unfold bufio.tooLong, bufio.MaxScanTokenSize. apply Z.leb_gt. lia.
Qed.

(** A scan that went through goes through with one more short line, and
    delivers it last. *)
Lemma scanPieces_snoc l : forall ps toks,
  bufio.scanPieces (ps ++ [EmptyString]) = (toks, None) ->
  bufio.tooLong l = false ->
  bufio.scanPieces (ps ++ [l; EmptyString]) = ((toks ++ [bufio.dropCR l])%list, None).
Proof.
  induction ps as [|p ps IH]; intros toks Hscan Hl.
  - simpl in *. rewrite Hl. injection Hscan as <-. reflexivity.
  - simpl in *. destruct (bufio.tooLong p); [discriminate|].
    destruct (ps ++ [EmptyString])%list as [|q qs] eqn:Hq; [by destruct ps|].
    destruct (bufio.scanPieces (q :: qs)) as [t e] eqn:Ht.
    injection Hscan as <- ->.
    rewrite (IH t eq_refl Hl).
    destruct (ps ++ [l; EmptyString])%list eqn:Hq'; [by destruct ps|]. reflexivity.
Qed.

Lemma parseTokens_snoc t id : forall toks acc ids,
  parseTokens acc toks = (ids, None) ->
  strconv.ParseInt t = (id, None) ->
  parseTokens acc (toks ++ [t]) = ((ids ++ [id])%list, None).
Proof.
  induction toks as [|t0 toks IH]; intros acc ids Hp Ht; simpl in *.
  - injection Hp as <-. rewrite Ht. reflexivity.
  - destruct (strconv.ParseInt t0) as [id0 [e|]]; [discriminate|].
    apply (IH _ _ Hp Ht).
Qed.

(** What a listing without error says of the file it read. *)
Lemma getSubscribers_success fsys path f ids evs :
  fsys path = os.Present f ->
  getSubscribers fsys path = (ids, None, evs) ->
  exists toks,
    bufio.scanPieces (bufio.pieces (os.contents f)) = (toks, None)
    /\ os.readErr f = None
    /\ parseTokens [] toks = (ids, None).
Proof.
  intros Hf. unfold getSubscribers, os.Open, scanFile. rewrite Hf. cbv beta iota.
  destruct (bufio.scanPieces (bufio.pieces (os.contents f))) as [toks err].
  destruct (parseTokens [] toks) as [ids' [e|]] eqn:Hp; [discriminate|].
  destruct err as [e|]; [discriminate|].
  destruct (os.readErr f) as [msg|]; [discriminate|].
  intros [= <- _]. exists toks. done.
Qed.

Lemma getSubscribers_present fsys path f toks ids :
  fsys path = os.Present f ->
  bufio.scanPieces (bufio.pieces (os.contents f)) = (toks, None) ->
  os.readErr f = None ->
  parseTokens [] toks = (ids, None) ->
  getSubscribers fsys path = (ids, None, [Open path]).
Proof.
  intros Hf Hs Hr Hp. unfold getSubscribers, os.Open, scanFile.
  rewrite Hf. cbv beta iota. rewrite Hs, Hr, Hp. reflexivity.
Qed.

Lemma put_same fsys path e : oswrite.put fsys path e path = e.
Proof. unfold oswrite.put. rewrite String.eqb_refl. reflexivity. Qed.

Lemma put_other fsys path e p : p <> path -> oswrite.put fsys path e p = fsys p.
Proof.
  intros Hp. unfold oswrite.put.
  destruct (String.eqb_spec p path); [done|reflexivity].
Qed.

(** Saving to a file that is not there is saving to an empty file. *)
Lemma saveSubscriberID_absent fsys w tgid path :
  fsys path = os.Absent ->
  saveSubscriberID fsys w tgid path
  = saveSubscriberID
      (oswrite.put fsys path
         (os.Present {| os.contents := EmptyString; os.readErr := None |}))
      w tgid path.
Proof.
  intros Habs. unfold saveSubscriberID, oswrite.OpenFile.
  rewrite Habs, put_same. reflexivity.
Qed.

(** The file after a save that went through. *)
Lemma saveSubscriberID_complete fsys tgid path f :
  fsys path = os.Present f ->
  saveSubscriberID fsys oswrite.Complete tgid path
  = (oswrite.put fsys path
       (os.Present {| os.contents := os.contents f ++ itoa.FormatInt tgid ++ newline;
                      os.readErr := os.readErr f |}), None).
Proof.
  intros Hf. unfold saveSubscriberID, oswrite.OpenFile. rewrite Hf. reflexivity.
Qed.

Lemma listsCleanly_listing fsys path ids :
  listsCleanly fsys path ids -> getSubscribers fsys path = (ids, None, [Open path]).
Proof.
  intros (f & toks & Hf & _ & Hread & Hscan & Hparse).
  apply (getSubscribers_present _ _ _ _ _ Hf Hscan Hread Hparse).
Qed.

(** The invariant of the file: a save that goes through keeps it in good
    order and adds the saved identifier at the end of what it lists. *)
Lemma save_keeps_listsCleanly fsys path ids tgid :
  listsCleanly fsys path ids ->
  minInt64 <= tgid <= maxInt64 ->
  (saveSubscriberID fsys oswrite.Complete tgid path).2 = None
  /\ listsCleanly (saveSubscriberID fsys oswrite.Complete tgid path).1 path
       (ids ++ [tgid])%list.
Proof.
  intros (f & toks & Hf & Hterm & Hread & Hscan & Hparse) Hid.
  rewrite (saveSubscriberID_complete fsys tgid path f Hf). simpl.
  destruct (pieces_terminated _ Hterm) as [ps Hps].
  destruct (FormatInt_text tgid Hid) as (Hline & Hlen & _).
  split; [reflexivity|].
  eexists. exists (toks ++ [itoa.FormatInt tgid])%list.
  split; [apply put_same|]. simpl.
  split; [apply newlineTerminated_append|]. split; [exact Hread|]. split.
  - rewrite (pieces_append _ _ ps Hps), (pieces_line _ Hline).
    rewrite Hps in Hscan.
    rewrite (scanPieces_snoc _ _ _ Hscan (tooLong_short _ Hlen)).
    by rewrite (dropCR_oneLine _ Hline).
  - apply (parseTokens_snoc _ _ _ _ _ Hparse (ParseInt_FormatInt tgid Hid)).
Qed.

(** The first save into a file that is not there leaves a file in good
    order that lists the saved identifier. *)
Lemma first_save_listsCleanly fsys path tgid :
  fsys path = os.Absent ->
  minInt64 <= tgid <= maxInt64 ->
  listsCleanly (saveSubscriberID fsys oswrite.Complete tgid path).1 path [tgid].
Proof.
  intros Habs Hid.
  rewrite (saveSubscriberID_absent fsys oswrite.Complete tgid path Habs).
  apply (save_keeps_listsCleanly _ path [] tgid); [|exact Hid].
  exists {| os.contents := EmptyString; os.readErr := None |}, [].
  split; [apply put_same|]. done.
Qed.

Lemma saveAll_keeps_listsCleanly path ids : forall fsys ids0,
  listsCleanly fsys path ids0 ->
  Forall (fun id => minInt64 <= id <= maxInt64) ids ->
  listsCleanly (saveAll fsys ids path) path (ids0 ++ ids)%list.
Proof.
  induction ids as [|id ids IH]; intros fsys ids0 Hinv Hids.
  - simpl. by rewrite app_nil_r.
  - apply Forall_cons in Hids as [Hid Hids]. simpl.
    destruct (save_keeps_listsCleanly fsys path ids0 id Hinv Hid) as [_ Hinv'].
    specialize (IH _ _ Hinv' Hids). by rewrite <- app_assoc in IH.
Qed.

(** X1. Round trip through the file: after a chat ID is saved to a
    subscriber file that is empty or ends in a newline and that lists
    without error, the file lists the same identifiers as before followed
    by the saved one, and it still ends in a newline. *)
Theorem saveSubscriberID_then_getSubscribers fsys path f ids evs tgid :
  fsys path = os.Present f ->
  newlineTerminated (os.contents f) = true ->
  getSubscribers fsys path = (ids, None, evs) ->
  minInt64 <= tgid <= maxInt64 ->
  let r := saveSubscriberID fsys oswrite.Complete tgid path in
  r.2 = None
  /\ getSubscribers r.1 path = ((ids ++ [tgid])%list, None, [Open path])
  /\ exists f', r.1 path = os.Present f' /\ newlineTerminated (os.contents f') = true.
Proof.
  intros Hf Hterm Hlist Hid r. subst r.
  destruct (getSubscribers_success _ _ _ _ _ Hf Hlist) as (toks & Hscan & Hread & Hparse).
  assert (Hinv : listsCleanly fsys path ids).
  { exists f, toks. done. }
  destruct (save_keeps_listsCleanly fsys path ids tgid Hinv Hid) as [Hok Hinv'].
  split; [exact Hok|]. split; [apply (listsCleanly_listing _ _ _ Hinv')|].
  destruct Hinv' as (f' & _ & Hf' & Hterm' & _). eauto.
Qed.

Lemma saveSubscriberID_then_getSubscribers_witness :
  let fsys := oneFile "subs" (textFile "5
6
") in
  let r := saveSubscriberID fsys oswrite.Complete (-1001234567890) "subs" in
  r.2 = None
  /\ getSubscribers r.1 "subs" = ([5; 6; -1001234567890], None, [Open "subs"])
  /\ exists f', r.1 "subs" = os.Present f' /\ newlineTerminated (os.contents f') = true.
Proof.
  apply (saveSubscriberID_then_getSubscribers (oneFile "subs" (textFile "5
6
")) "subs" {| os.contents := "5
6
"; os.readErr := None |} [5; 6] [Open "subs"] (-1001234567890)).
  - reflexivity.
  - reflexivity.
  - reflexivity.
  - vm_compute. split; discriminate.
Defined.

(** X2. Chat IDs saved one after the other into a subscriber file that was
    not there are listed afterwards exactly as they were saved: all of
    them, in that order, a chat saved twice being listed twice. *)
Theorem saveAll_then_getSubscribers fsys path ids :
  fsys path = os.Absent ->
  Forall (fun id => minInt64 <= id <= maxInt64) ids ->
  (getSubscribers (saveAll fsys ids path) path).1 = (ids, None).
Proof.
  intros Habs Hids. destruct ids as [|id ids].
  - simpl. unfold getSubscribers, os.Open. rewrite Habs. reflexivity.
  - apply Forall_cons in Hids as [Hid Hids]. simpl.
    pose proof (first_save_listsCleanly fsys path id Habs Hid) as Hinv.
    pose proof (saveAll_keeps_listsCleanly path ids _ _ Hinv Hids) as Hall.
    rewrite (listsCleanly_listing _ _ _ Hall). reflexivity.
Qed.

Lemma saveAll_then_getSubscribers_witness :
  (getSubscribers (saveAll (fun _ => os.Absent) [42; -7; 42] "subs") "subs").1
  = ([42; -7; 42], None).
Proof.
  apply (saveAll_then_getSubscribers (fun _ => os.Absent) "subs" [42; -7; 42]).
  - reflexivity.
  - repeat constructor; vm_compute; discriminate.
Defined.

(** X3. A save only appends: whatever the write meets, every other path
    is left as it was, an existing file keeps the bytes it held (what is
    written comes after them), a file that cannot be opened is left alone
    and the error of the open is returned; and when the save returns no
    error the bytes added are the decimal text of the chat ID and a
    newline. *)
Theorem saveSubscriberID_appends fsys w tgid path :
  let r := saveSubscriberID fsys w tgid path in
  (forall p, p <> path -> r.1 p = fsys p)
  /\ match fsys path with
     | os.Present f =>
         exists added,
           r.1 path = os.Present {| os.contents := os.contents f ++ added;
                                    os.readErr := os.readErr f |}
           /\ (r.2 = None -> added = itoa.FormatInt tgid ++ newline)
     | os.Absent =>
         exists added,
           r.1 path = os.Present {| os.contents := added; os.readErr := None |}
           /\ (r.2 = None -> added = itoa.FormatInt tgid ++ newline)
     | os.Unopenable errno =>
         r.1 path = os.Unopenable errno /\ r.2 = Some (PathError "open" path errno)
     end.
Proof.
  intros r. subst r. unfold saveSubscriberID, oswrite.OpenFile.
  destruct (fsys path) as [|errno|f] eqn:Hf.
  - destruct w as [|n errno]; simpl.
    + split; [intros p Hp; by rewrite !put_other|].
      eexists. rewrite put_same. split; [reflexivity|done].
    + split; [intros p Hp; by rewrite !put_other|].
      eexists. rewrite put_same. split; [reflexivity|discriminate].
  - simpl. rewrite Hf. done.
  - destruct w as [|n errno]; simpl.
    + split; [intros p Hp; by rewrite put_other|].
      eexists. rewrite put_same. split; [reflexivity|done].
    + split; [intros p Hp; by rewrite put_other|].
      eexists. rewrite put_same. split; [reflexivity|discriminate].
Qed.

(** ** Steps and runs of the worker *)

(** All sends of the loop succeeding, every identifier is sent to. *)
Lemma notifyAll_all_sent bot b ids :
  (forall j id, ids !! j = Some id -> bot j (NewMessage id b) = None) ->
  notifyAll bot 0%nat b ids = ((fun id => Send (NewMessage id b) None) <$> ids, None).
Proof.
  intros Hok.
  destruct (notifyAll_from bot b ids 0%nat (length ids)) as [Hall _].
  - intros j idj _ Hj. apply (Hok j idj Hj).
  - apply Hall. apply lookup_ge_None. lia.
Qed.

(** What a step assigns, and the variables after it. *)
Lemma step_assigns w path g :
  let r := tryNotifyIfNewBlock w path g in
  match fetchLastBlock (net w) with
  | (b, None, _) =>
      if isNewEvent g b
      then r.1.1 = acknowledge b g /\ assignments r.2 = [b]
      else r.1.1 = g /\ assignments r.2 = []
  | (_, Some _, _) => r.1.1 = g /\ assignments r.2 = []
  end.
Proof.
  intros r. subst r. unfold tryNotifyIfNewBlock.
  pose proof (fetchLastBlock_events (net w)) as Hev.
  destruct (fetchLastBlock (net w)) as [[b [e|]] fetched]; simpl in Hev; subst fetched.
  - done.
  - destruct (isNewEvent g b); [|done].
    pose proof (getSubscribers_quiet (fsys w) path) as [_ Hga].
    destruct (getSubscribers (fsys w) path) as [[ids [e|]] listed]; simpl in *.
    + unfold assignments in *. simpl. rewrite Hga. done.
    + pose proof (notifyAll_quiet (send w) 0%nat b ids) as [_ Hna].
      destruct (notifyAll (send w) 0%nat b ids) as [sent err]. simpl in *.
      unfold assignments in *. simpl. rewrite omap_app, Hga, Hna. done.
Qed.

(** The messages of the fan-out are messages about the block. *)
Lemma notifyAll_about bot b ids : forall k,
  Forall (fun m => Height m = height b /\ At m = ts b)
         (attempts (notifyAll bot k b ids).1).
Proof.
  induction ids as [|id ids IH]; intros k; simpl; [constructor|].
  destruct (bot k _).
  - repeat constructor.
  - specialize (IH (S k)). destruct (notifyAll bot (S k) b ids) as [evs err].
    constructor; [done|exact IH].
Qed.

(** A step sends only when it fetched a new block, and then only messages
    about that block. *)
Lemma step_attempts w path g :
  attempts (tryNotifyIfNewBlock w path g).2 = []
  \/ exists b fetched,
       fetchLastBlock (net w) = (b, None, fetched)
       /\ isNewEvent g b = true
       /\ Forall (fun m => Height m = height b /\ At m = ts b)
                 (attempts (tryNotifyIfNewBlock w path g).2).
Proof.
  unfold tryNotifyIfNewBlock.
  pose proof (fetchLastBlock_events (net w)) as Hev.
  destruct (fetchLastBlock (net w)) as [[b [e|]] fetched] eqn:Hf; simpl in Hev; subst fetched.
  - by left.
  - destruct (isNewEvent g b) eqn:Hnew; [|by left].
    right. exists b, [Get blocksURL]. split; [reflexivity|]. split; [exact Hnew|].
    pose proof (getSubscribers_quiet (fsys w) path) as [Hga _].
    destruct (getSubscribers (fsys w) path) as [[ids [e|]] listed]; simpl in *.
    + unfold attempts in *. simpl. rewrite Hga. constructor.
    + pose proof (notifyAll_about (send w) b ids 0%nat) as Hab.
      destruct (notifyAll (send w) 0%nat b ids) as [sent err]. simpl in *.
      unfold attempts in *. simpl. rewrite omap_app, Hga. exact Hab.
Qed.

Lemma worker_cons w ws path g :
  worker (w :: ws) path g
  = let r := tryNotifyIfNewBlock w path g in
    let logged := match r.1.2 with Some e => [PrintfError e] | None => [] end in
    let rest := worker ws path r.1.1 in
    (rest.1, (r.2 ++ logged ++ Sleep :: rest.2)%list).
Proof.
  simpl. destruct (tryNotifyIfNewBlock w path g) as [[g' err] evs]. simpl.
  destruct (worker ws path g') as [g'' rest]. reflexivity.
Qed.

Lemma assignments_round (evs : list event) (err : option error) (rest : list event) :
  assignments (evs ++ match err with Some e => [PrintfError e] | None => [] end
                   ++ Sleep :: rest)
  = (assignments evs ++ assignments rest)%list.
Proof.
  unfold assignments. rewrite !omap_app. destruct err; reflexivity.
Qed.

Lemma attempts_round (evs : list event) (err : option error) (rest : list event) :
  attempts (evs ++ match err with Some e => [PrintfError e] | None => [] end
                ++ Sleep :: rest)
  = (attempts evs ++ attempts rest)%list.
Proof.
  unfold attempts. rewrite !omap_app. destruct err; reflexivity.
Qed.

Lemma default_last_cons {A} (d b : A) (l : list A) :
  default d (last (b :: l)) = default b (last l).
Proof. rewrite last_cons. destruct (last l); reflexivity. Qed.

(** X4. Over a whole run, the blocks acknowledged are exactly the fetched
    blocks whose height is not the height stored before them (failed
    fetches count for nothing), in order; and the block stored at the end
    is the last of them, or the one stored at the start when there is
    none. *)
Theorem worker_acknowledges_height_changes path ws : forall g,
  assignments (worker ws path g).2
  = changes (height (lastBlockChecked g)) (fetchedBlocks ws)
  /\ lastBlockChecked (worker ws path g).1
     = default (lastBlockChecked g)
               (last (changes (height (lastBlockChecked g)) (fetchedBlocks ws))).
Proof.
  induction ws as [|w ws IH]; intros g; [done|].
  rewrite worker_cons. cbv zeta. cbn [fst snd].
  rewrite assignments_round.
  pose proof (step_assigns w path g) as Hstep. cbv zeta in Hstep.
  unfold fetchedBlocks. cbn [omap list_omap]. fold (fetchedBlocks ws).
  destruct (fetchLastBlock (net w)) as [[b [e|]] fetched].
  - destruct Hstep as [-> ->]. apply IH.
  - unfold isNewEvent in Hstep. cbn [changes].
    destruct (height b =? height (lastBlockChecked g)); simpl in Hstep.
    + destruct Hstep as [-> ->]. apply IH.
    + destruct Hstep as [-> ->]. destruct (IH (acknowledge b g)) as [IHa IHl].
      rewrite IHa, IHl, default_last_cons. done.
Qed.

(** X5. Every message sent in a run is about a block acknowledged in that
    run: it carries the height and the time of a fetched block whose
    height was not the one stored before it.  No message carries a stale
    or made-up height. *)
Theorem worker_messages_about_acknowledged path ws : forall g,
  Forall (fun m => exists b,
            b ∈ changes (height (lastBlockChecked g)) (fetchedBlocks ws)
            /\ Height m = height b /\ At m = ts b)
         (attempts (worker ws path g).2).
Proof.
  induction ws as [|w ws IH]; intros g; [constructor|].
  rewrite worker_cons. cbv zeta. cbn [fst snd]. rewrite attempts_round.
  pose proof (step_assigns w path g) as Hstep. cbv zeta in Hstep.
  pose proof (step_attempts w path g) as Hatt.
  unfold fetchedBlocks. cbn [omap list_omap]. fold (fetchedBlocks ws).
  apply Forall_app. 
  destruct (fetchLastBlock (net w)) as [[b [e|]] fetched].
  - destruct Hstep as [-> _]. split; [|apply IH].
    destruct Hatt as [->|(b' & f' & Hf & _)]; [constructor|discriminate].
  - cbn [changes]. unfold isNewEvent in Hstep, Hatt.
    destruct (height b =? height (lastBlockChecked g)) eqn:Hh; simpl in Hstep.
    + destruct Hstep as [-> _]. split; [|apply IH].
      destruct Hatt as [->|(b' & f' & [= <- _] & Hnew & _)]; [constructor|].
      rewrite Hh in Hnew. discriminate Hnew.
    + destruct Hstep as [-> _]. split.
      * destruct Hatt as [->|(b' & f' & [= <- _] & _ & Hab)]; [constructor|].
        eapply Forall_impl; [exact Hab|]. intros m Hm. exists b.
        split; [apply elem_of_cons; by left|exact Hm].
      * eapply Forall_impl; [apply (IH (acknowledge b g))|].
        intros m (b' & Hin & Hm). exists b'.
        split; [apply elem_of_cons; by right|exact Hm].
Qed.

(** X8. A block whose fan-out failed is not taken up again: when a step
    that detected a new block returns an error (from listing the
    subscribers or from a send), the block is acknowledged all the same,
    and in the rounds after it, as long as the fetches fail or bring that
    height, nothing is sent. *)
Theorem failed_fanout_not_retried w path g b fetched e ws :
  fetchLastBlock (net w) = (b, None, fetched) ->
  isNewEvent g b = true ->
  (tryNotifyIfNewBlock w path g).1.2 = Some e ->
  Forall (fun w' => forall b' fetched',
            fetchLastBlock (net w') = (b', None, fetched') ->
            height b' = height b) ws ->
  let g' := (tryNotifyIfNewBlock w path g).1.1 in
  g' = acknowledge b g
  /\ (worker ws path g').1 = g'
  /\ attempts (worker ws path g').2 = [].
Proof.
  intros Hf Hnew He Hws g'. subst g'.
  pose proof (step_assigns w path g) as Hstep. cbv zeta in Hstep.
  rewrite Hf, Hnew in Hstep. destruct Hstep as [Hg _]. rewrite Hg.
  split; [reflexivity|].
  destruct (worker_same_height_silent ws path (acknowledge b g) Hws) as (Hst & Hat & _).
  done.
Qed.

Lemma failed_fanout_not_retried_witness :
  let w := {| net := answering 200 (json.Array [blockRecord 100 1700000000000]);
              fsys := oneFile "subs" (textFile "1
2
3
");
              send := failingFor 2 |} in
  let g' := (tryNotifyIfNewBlock w "subs" initial).1.1 in
  g' = acknowledge {| height := 100; ts := 1700000000000 |} initial
  /\ (worker [offline; tick 100 1700000600000] "subs" g').1 = g'
  /\ attempts (worker [offline; tick 100 1700000600000] "subs" g').2 = [].
Proof.
  apply (failed_fanout_not_retried
           {| net := answering 200 (json.Array [blockRecord 100 1700000000000]);
              fsys := oneFile "subs" (textFile "1
2
3
");
              send := failingFor 2 |} "subs" initial
           {| height := 100; ts := 1700000000000 |} [Get blocksURL]
           (SendError "Forbidden") [offline; tick 100 1700000600000]).
  - vm_compute. reflexivity.
  - vm_compute. reflexivity.
  - vm_compute. reflexivity.
  - repeat constructor; intros b' fetched'; vm_compute; intros [= <- _]; reflexivity.
Defined.

(** ** The loop over the updates *)

Lemma handleUpdate_no_message fsys w path u :
  tgbotapi.UpdateMessage u = None -> handleUpdate fsys w path u = Some (fsys, []).
Proof. intros Hu. unfold handleUpdate. rewrite Hu. reflexivity. Qed.

Lemma handleUpdate_message fsys w path u m user :
  tgbotapi.UpdateMessage u = Some m ->
  tgbotapi.From m = Some user ->
  handleUpdate fsys w path u
  = Some ((saveSubscriberID fsys w (tgbotapi.ChatID m) path).1,
          [Logged ("[" ++ tgbotapi.UserName user ++ "] " ++ tgbotapi.Text m);
           Answered {| tgbotapi.To := tgbotapi.ChatID m;
                       tgbotapi.Body :=
                         match (saveSubscriberID fsys w (tgbotapi.ChatID m) path).2 with
                         | Some _ => failedText
                         | None => subscribedText
                         end;
                       tgbotapi.ReplyToMessageID := tgbotapi.MessageID m |}]).
Proof.
  intros Hu Hfrom. unfold handleUpdate. rewrite Hu, Hfrom.
  destruct (saveSubscriberID fsys w (tgbotapi.ChatID m) path) as [fsys' err].
  reflexivity.
Qed.

(** With every message having a sender and every write going through, the
    loop saves the chats of the messages, in order. *)
Lemma serve_saves path us : forall fsys,
  Forall (fun u => senderless u = false) us ->
  exists evs,
    serve fsys path ((fun u => (u, oswrite.Complete)) <$> us)
    = Some (saveAll fsys (chatIDs us) path, evs).
Proof.
  induction us as [|u us IH]; intros fsys Hus; [by exists []|].
  apply Forall_cons in Hus as [Hu Hus]. cbn [fmap list_fmap serve].
  unfold senderless in Hu. unfold chatIDs. cbn [omap list_omap]. fold (chatIDs us).
  destruct (tgbotapi.UpdateMessage u) as [m|] eqn:Hm.
  - destruct (tgbotapi.From m) as [user|] eqn:Hfrom; [|discriminate].
    rewrite (handleUpdate_message _ _ _ _ _ _ Hm Hfrom). cbn [fmap option_fmap option_map].
    destruct (IH (saveSubscriberID fsys oswrite.Complete (tgbotapi.ChatID m) path).1 Hus)
      as [evs ->].
    eexists. reflexivity.
  - rewrite (handleUpdate_no_message _ _ _ _ Hm). cbn [fmap option_fmap option_map].
    destruct (IH fsys Hus) as [evs ->]. eexists. reflexivity.
Qed.

(** X9. From subscribing to being notified: the messages received (each
    with a sender, each write going through) being saved to a subscriber
    file that was not there, a step that then fetches a new block and whose
    sends succeed sends one message about that block for every message
    received, to the chat it came from, in the order received; a chat that
    wrote twice is notified twice. *)
Theorem subscribed_chats_are_notified fsys0 path updates :
  fsys0 path = os.Absent ->
  Forall (fun u => senderless u = false) updates ->
  Forall (fun id => minInt64 <= id <= maxInt64) (chatIDs updates) ->
  exists fsys1 evs,
    serve fsys0 path ((fun u => (u, oswrite.Complete)) <$> updates) = Some (fsys1, evs)
    /\ forall w g b fetched,
         fsys w = fsys1 ->
         fetchLastBlock (net w) = (b, None, fetched) ->
         isNewEvent g b = true ->
         (forall k m, send w k m = None) ->
         attempts (tryNotifyIfNewBlock w path g).2
         = (fun id => NewMessage id b) <$> chatIDs updates.
Proof.
  intros Habs Hsend Hrange.
  destruct (serve_saves path updates fsys0 Hsend) as [evs Hserve].
  exists (saveAll fsys0 (chatIDs updates) path), evs. split; [exact Hserve|].
  intros w g b fetched Hfs Hf Hnew Hok.
  assert (Hlist : (getSubscribers (saveAll fsys0 (chatIDs updates) path) path).1
                  = (chatIDs updates, None)).
  { destruct (chatIDs updates) as [|id ids].
    - simpl. unfold getSubscribers, os.Open. rewrite Habs. reflexivity.
    - apply Forall_cons in Hrange as [Hid Hids]. simpl.
      rewrite (listsCleanly_listing _ _ _
                 (saveAll_keeps_listsCleanly path ids _ _
                    (first_save_listsCleanly fsys0 path id Habs Hid) Hids)).
      reflexivity. }
  rewrite <- Hfs in Hlist.
  pose proof (fetchLastBlock_events (net w)) as Hev. rewrite Hf in Hev. simpl in Hev.
  subst fetched.
  pose proof (getSubscribers_quiet (fsys w) path) as [Hga _].
  unfold tryNotifyIfNewBlock. rewrite Hf, Hnew.
  destruct (getSubscribers (fsys w) path) as [[ids err] listed].
  simpl in Hlist, Hga. injection Hlist as -> ->.
  rewrite (notifyAll_all_sent (send w) b (chatIDs updates) (fun j id _ => Hok j _)).
  unfold attempts in *. simpl. rewrite omap_app, Hga. simpl.
  apply attempts_sent.
Qed.

Lemma subscribed_chats_are_notified_witness :
  exists fsys1 evs,
    serve (fun _ => os.Absent) "subs"
      ((fun u => (u, oswrite.Complete)) <$>
         [messageFrom 7 "/start"; messageFrom 9 "hello"; messageFrom 7 "/start"])
    = Some (fsys1, evs)
    /\ forall w g b fetched,
         fsys w = fsys1 ->
         fetchLastBlock (net w) = (b, None, fetched) ->
         isNewEvent g b = true ->
         (forall k m, send w k m = None) ->
         attempts (tryNotifyIfNewBlock w "subs" g).2
         = (fun id => NewMessage id b) <$> [7; 9; 7].
Proof.
  apply (subscribed_chats_are_notified (fun _ => os.Absent) "subs"
           [messageFrom 7 "/start"; messageFrom 9 "hello"; messageFrom 7 "/start"]).
  - reflexivity.
  - repeat constructor.
  - repeat constructor; vm_compute; discriminate.
Defined.

(** X10. Every message handled gets one answer and an update without a
    message gets none: the answers of a loop that ran to its end are, in
    order, addressed to the chats of the messages received, each as a reply
    to its message, whatever the texts and whatever the writes met. *)
Theorem serve_answers_each_message path us : forall fsys fsys' evs,
  serve fsys path us = Some (fsys', evs) ->
  (fun r => (tgbotapi.To r, tgbotapi.ReplyToMessageID r)) <$> answers evs
  = (fun m => (tgbotapi.ChatID m, tgbotapi.MessageID m)) <$> messages (fst <$> us).
Proof.
  induction us as [|[u w] us IH]; intros fsys fsys' evs Hserve.
  - injection Hserve as _ <-. reflexivity.
  - cbn [serve] in Hserve.
    destruct (handleUpdate fsys w path u) as [[fsys1 evs1]|] eqn:Hh; [|discriminate].
    destruct (serve fsys1 path us) as [[fsys2 evs2]|] eqn:Hs; [|discriminate].
    injection Hserve as _ <-. specialize (IH _ _ _ Hs).
    unfold answers in *. rewrite omap_app, fmap_app, IH.
    unfold messages. cbn [fmap list_fmap omap list_omap fst].
    unfold handleUpdate in Hh.
    destruct (tgbotapi.UpdateMessage u) as [m|].
    + destruct (tgbotapi.From m) as [user|]; [|discriminate].
      destruct (saveSubscriberID fsys w (tgbotapi.ChatID m) path) as [fsys'' err].
      injection Hh as _ <-. reflexivity.
    + injection Hh as _ <-. reflexivity.
Qed.

Lemma serve_answers_each_message_witness :
  (fun r => (tgbotapi.To r, tgbotapi.ReplyToMessageID r)) <$>
    answers [Logged "[alice] hi";
             Answered {| tgbotapi.To := 7; tgbotapi.Body := subscribedText;
                         tgbotapi.ReplyToMessageID := 1 |}]
  = (fun m => (tgbotapi.ChatID m, tgbotapi.MessageID m)) <$>
      messages (fst <$> [({| tgbotapi.UpdateMessage := None |}, oswrite.Complete);
                         (messageFrom 7 "hi", oswrite.Complete)]).
Proof.
  apply (serve_answers_each_message "subs"
           [({| tgbotapi.UpdateMessage := None |}, oswrite.Complete);
            (messageFrom 7 "hi", oswrite.Complete)]
           (fun _ => os.Absent)
           (saveAll (fun _ => os.Absent) [7] "subs")).
  reflexivity.
Defined.

Lemma texts_differ : subscribedText <> failedText.
Proof. discriminate. Qed.

(** X11. The answer tells the outcome of the save: a message with a
    sender is answered with the text of success exactly when the
    subscriber file could be opened and the write went through, and
    otherwise with the text of failure; after an answer of success the file
    holds what it held before, then the chat ID in decimal and a newline. *)
Theorem answer_tells_the_outcome fsys w path u m user :
  tgbotapi.UpdateMessage u = Some m ->
  tgbotapi.From m = Some user ->
  exists fsys' line reply,
    handleUpdate fsys w path u = Some (fsys', [Logged line; Answered reply])
    /\ (tgbotapi.Body reply = subscribedText
        <-> w = oswrite.Complete /\ forall errno, fsys path <> os.Unopenable errno)
    /\ (tgbotapi.Body reply <> subscribedText -> tgbotapi.Body reply = failedText)
    /\ (tgbotapi.Body reply = subscribedText ->
        exists old,
          old = match fsys path with
                | os.Present f => f
                | _ => {| os.contents := EmptyString; os.readErr := None |}
                end
          /\ fsys' path
             = os.Present
                 {| os.contents :=
                      os.contents old ++ itoa.FormatInt (tgbotapi.ChatID m) ++ newline;
                    os.readErr := os.readErr old |}).
Proof.
  intros Hu Hfrom. rewrite (handleUpdate_message _ _ _ _ _ _ Hu Hfrom).
  do 3 eexists. split; [reflexivity|]. cbn [tgbotapi.Body].
  pose proof texts_differ as Hdiff.
  unfold saveSubscriberID, oswrite.OpenFile.
  destruct (fsys path) as [|errno|f] eqn:Hf; destruct w as [|n errno']; cbn.
  - split; [split; [intros _; split; [reflexivity|discriminate]|reflexivity]|].
    split; [done|]. intros _. eexists. split; [reflexivity|]. by rewrite put_same.
  - split; [split; [intros H; by symmetry in H|intros [[=] _]]|].
    split; [done|]. intros H. by symmetry in H.
  - split; [split; [intros H; by symmetry in H|intros [_ H]; by destruct (H errno)]|].
    split; [done|]. intros H. by symmetry in H.
  - split; [split; [intros H; by symmetry in H|intros [_ H]; by destruct (H errno)]|].
    split; [done|]. intros H. by symmetry in H.
  - split; [split; [intros _; split; [reflexivity|discriminate]|reflexivity]|].
    split; [done|]. intros _. eexists. split; [reflexivity|]. by rewrite put_same.
  - split; [split; [intros H; by symmetry in H|intros [[=] _]]|].
    split; [done|]. intros H. by symmetry in H.
Qed.

Lemma answer_tells_the_outcome_witness :
  exists fsys' line reply,
    handleUpdate (oneFile "subs" (textFile "5
")) oswrite.Complete "subs" (messageFrom 7 "/start")
    = Some (fsys', [Logged line; Answered reply])
    /\ (tgbotapi.Body reply = subscribedText
        <-> oswrite.Complete = oswrite.Complete
            /\ forall errno, oneFile "subs" (textFile "5
") "subs" <> os.Unopenable errno)
    /\ (tgbotapi.Body reply <> subscribedText -> tgbotapi.Body reply = failedText)
    /\ (tgbotapi.Body reply = subscribedText ->
        exists old,
          old = match oneFile "subs" (textFile "5
") "subs" with
                | os.Present f => f
                | _ => {| os.contents := EmptyString; os.readErr := None |}
                end
          /\ fsys' "subs"
             = os.Present
                 {| os.contents := os.contents old ++ itoa.FormatInt 7 ++ newline;
                    os.readErr := os.readErr old |}).
Proof.
  apply (answer_tells_the_outcome (oneFile "subs" (textFile "5
")) oswrite.Complete "subs" (messageFrom 7 "/start")
           {| tgbotapi.MessageID := 1;
              tgbotapi.From := Some {| tgbotapi.UserName := "alice" |};
              tgbotapi.ChatID := 7;
              tgbotapi.Text := "/start" |} {| tgbotapi.UserName := "alice" |}).
  - reflexivity.
  - reflexivity.
Defined.

(** X12. The loop ends in a panic exactly when one of the updates carries
    a message without a sender (the log line of line 92 reads the sender's
    name before anything is saved or answered); otherwise it handles every
    update. *)
Theorem serve_panics_on_missing_sender path us : forall fsys,
  serve fsys path us = None <-> Exists (fun u => senderless u.1 = true) us.
Proof.
  induction us as [|[u w] us IH]; intros fsys.
  - split; [discriminate|]. intros H. by apply Exists_nil in H.
  - cbn [serve]. rewrite Exists_cons. cbn [fst]. unfold senderless at 1.
    destruct (tgbotapi.UpdateMessage u) as [m|] eqn:Hm.
    + destruct (tgbotapi.From m) as [user|] eqn:Hfrom.
      * rewrite (handleUpdate_message _ _ _ _ _ _ Hm Hfrom).
        specialize (IH (saveSubscriberID fsys w (tgbotapi.ChatID m) path).1).
        destruct (serve _ path us) as [[fsys2 evs2]|].
        -- split; [discriminate|]. intros [H|H]; [discriminate|]. by apply IH in H.
        -- split; [|reflexivity]. intros _. right. by apply IH.
      * unfold handleUpdate. rewrite Hm, Hfrom. split; [by left|reflexivity].
    + rewrite (handleUpdate_no_message _ _ _ _ Hm). specialize (IH fsys).
      destruct (serve fsys path us) as [[fsys2 evs2]|].
      * split; [discriminate|]. intros [H|H]; [discriminate|]. by apply IH in H.
      * split; [|reflexivity]. intros _. right. by apply IH.
Qed.

(** ** More on the pool API client *)

(** X13. Whenever the fetch returns an error, the block that comes with it
    is the zero block: no height or time read from a response leaks out
    next to an error. *)
Theorem fetchLastBlock_error_zero_block net e :
  (fetchLastBlock net).1.2 = Some e -> (fetchLastBlock net).1.1 = block0.
Proof.
  unfold fetchLastBlock. repeat case_match; simpl; intros He; reflexivity || discriminate.
Qed.

Lemma fetchLastBlock_error_zero_block_witness :
  (fetchLastBlock (answering 200 (json.Array
     [json.Object [("height", jsonInt 100)]]))).1.1 = block0.
Proof.
  apply (fetchLastBlock_error_zero_block _ errUnexpectedStructure).
  vm_compute. reflexivity.
Defined.

(** The literal that [huge] finds is there exactly when there is one. *)
Lemma huge_overflows : forall v, json.huge v = None <-> overflows v = false.
Proof.
  fix IH 1. intros [|b|n|lit|s|vs|ms]; simpl; try done.
  - induction vs as [|v vs IHvs]; simpl; [done|].
    pose proof (IH v) as Hv.
    destruct (json.huge v), (overflows v); simpl; try done.
    + destruct Hv as [_ Hv]. by specialize (Hv eq_refl).
    + destruct Hv as [Hv _]. by specialize (Hv eq_refl).
  - induction ms as [|[k v] ms IHms]; simpl; [done|].
    pose proof (IH v) as Hv.
    destruct (json.huge v), (overflows v); simpl; try done.
    + destruct Hv as [_ Hv]. by specialize (Hv eq_refl).
    + destruct Hv as [Hv _]. by specialize (Hv eq_refl).
Qed.

(** An element decodes without error when it is null or an object that
    holds no number literal outside the range of float64. *)
Lemma element_error v :
  (json.element v).2 = None
  <-> match v with json.Object _ | json.Null => true | _ => false end = true
      /\ overflows v = false.
Proof.
  destruct v as [|b|n|lit|s|vs|ms]; try (simpl; intuition discriminate).
  unfold json.element. cbn [snd].
  pose proof (huge_overflows (json.Object ms)) as Hh.
  destruct (json.huge (json.Object ms)); split.
  - discriminate.
  - intros [_ Ho]. apply Hh in Ho. discriminate.
  - intros _. split; [reflexivity|]. by apply Hh.
  - reflexivity.
Qed.

Lemma elements_error vs :
  (json.elements vs).2 = None
  <-> forallb (fun v => match v with
                        | json.Object _ | json.Null => true
                        | _ => false
                        end) vs = true
      /\ existsb overflows vs = false.
Proof.
  induction vs as [|v vs IH]; [done|].
  cbn [json.elements forallb existsb].
  pose proof (element_error v) as Hv.
  destruct (json.element v) as [m e], (json.elements vs) as [ms es].
  cbn [snd] in *. rewrite andb_true_iff, orb_false_iff.
  destruct e as [e|].
  - split; [discriminate|]. intros [[Hs _] [Ho _]].
    destruct Hv as [_ Hv]. by specialize (Hv (conj Hs Ho)).
  - destruct Hv as [Hv _]. specialize (Hv eq_refl). intuition.
Qed.

Lemma element_error_kind v e :
  (json.element v).2 = Some e -> exists kind, e = UnmarshalTypeError kind.
Proof.
  destruct v as [|b|n|lit|s|vs|ms]; try (simpl; intros [= <-]; eauto).
  unfold json.element. cbn [snd].
  destruct (json.huge (json.Object ms)); intros [= <-]; eauto.
Qed.

Lemma elements_error_kind vs e :
  (json.elements vs).2 = Some e -> exists kind, e = UnmarshalTypeError kind.
Proof.
  induction vs as [|v vs IH]; [discriminate|].
  cbn [json.elements].
  pose proof (element_error_kind v) as Hv.
  destruct (json.element v) as [m [e'|]], (json.elements vs) as [ms es];
    cbn [snd] in *.
  - intros [= <-]. by apply Hv.
  - exact IH.
Qed.

(** X14. A readable body that is JSON makes the fetch fail with the type
    error of the decoder, not with [errUnexpectedStructure], exactly in two
    cases.  One: the body does not have the shape of a slice of maps (it is
    not null and not an array, or an element of the array, the first or a
    later one, is neither an object nor null), even when the first element
    is a well-formed block.  Two: it holds, at any depth of any element, a
    number literal outside the range of float64. *)
Theorem fetchLastBlock_type_error net res v :
  net blocksURL = http.Responded res ->
  http.bodyErr res = None ->
  http.Body res = json.Text v ->
  (arrayOfObjects v = false \/ overflows v = true
   <-> exists kind, fetchLastBlock net = (block0, Some (UnmarshalTypeError kind), [Get blocksURL])).
Proof.
  intros Hnet Hbody Hv.
  unfold fetchLastBlock, http.Get, io.ReadAll. rewrite Hnet, Hbody, Hv.
  destruct v as [|b|n|lit|s|vs|ms]; cbn [json.Unmarshal json.describe arrayOfObjects];
    try (split; [intros _; eauto|intros _; by left]).
  - split; [intros [?|?]; discriminate|]. intros [kind [=]].
  - pose proof (elements_error vs) as Hok.
    pose proof (elements_error_kind vs) as Hkind.
    cbn [overflows].
    destruct (json.elements vs) as [blocks [e|]]; cbn [snd] in *.
    + destruct (Hkind e eq_refl) as [kind ->].
      split; [intros _; eauto|]. intros _.
      destruct (forallb _ vs) eqn:Hs; [|by left].
      destruct (existsb overflows vs) eqn:Ho; [by right|].
      destruct Hok as [_ Hok]. by specialize (Hok (conj eq_refl eq_refl)).
    + destruct Hok as [Hok _]. destruct (Hok eq_refl) as [Hs Ho].
      rewrite Hs, Ho. split; [intros [?|?]; discriminate|].
      intros [kind Hk]. exfalso. repeat case_match; discriminate.
Qed.

Lemma fetchLastBlock_type_error_witness :
  let v := json.Array [json.Object [("height", json.Huge "1e400"); ("ts", jsonInt 1)]] in
  arrayOfObjects v = false \/ overflows v = true
  <-> exists kind,
        fetchLastBlock (answering 200 v)
        = (block0, Some (UnmarshalTypeError kind), [Get blocksURL]).
Proof.
  apply (fetchLastBlock_type_error
           (answering 200
              (json.Array [json.Object [("height", json.Huge "1e400"); ("ts", jsonInt 1)]]))
           {| http.StatusCode := 200;
              http.Body := json.Text
                (json.Array [json.Object [("height", json.Huge "1e400"); ("ts", jsonInt 1)]]);
              http.bodyErr := None |}).
  - reflexivity.
  - reflexivity.
  - reflexivity.
Defined.

Example fetchLastBlock_type_errors :
  fetchLastBlock (answering 200 (jsonInt 5))
  = (block0, Some (UnmarshalTypeError "number"), [Get blocksURL])
  /\ fetchLastBlock (answering 200 (json.Object [("height", jsonInt 5)]))
     = (block0, Some (UnmarshalTypeError "object"), [Get blocksURL])
  /\ fetchLastBlock (answering 200 (json.Array
       [json.Null; json.Object [("txs", json.Array [jsonInt 1; json.Huge "-1e999"])]]))
     = (block0, Some (UnmarshalTypeError "number -1e999"), [Get blocksURL])
  /\ fetchLastBlock (answering 200 (json.Array
       [json.Object [("height", json.Str "x"); ("height", jsonInt 7); ("ts", jsonInt 8)]]))
     = ({| height := 7; ts := 8 |}, None, [Get blocksURL]).
Proof. vm_compute. repeat split; reflexivity. Qed.

(** X15. Of a response that decodes, the fetch reads two things only: what
    the first element holds under "height" and under "ts".  Two responses
    whose first elements agree there give the same result, whatever their
    status codes, the other fields of the first element and the other
    elements. *)
Theorem fetchLastBlock_reads_height_and_ts net1 net2 res1 res2 m1 rest1 m2 rest2 :
  net1 blocksURL = http.Responded res1 ->
  net2 blocksURL = http.Responded res2 ->
  http.bodyErr res1 = None ->
  http.bodyErr res2 = None ->
  json.Unmarshal (http.Body res1) = (m1 :: rest1, None) ->
  json.Unmarshal (http.Body res2) = (m2 :: rest2, None) ->
  m1 !! "height" = m2 !! "height" ->
  m1 !! "ts" = m2 !! "ts" ->
  fetchLastBlock net1 = fetchLastBlock net2.
Proof.
  intros Hn1 Hn2 Hb1 Hb2 Hd1 Hd2 Hh Ht.
  unfold fetchLastBlock, http.Get, io.ReadAll.
  rewrite Hn1, Hn2, Hb1, Hb2, Hd1, Hd2, Hh, Ht. reflexivity.
Qed.

Lemma fetchLastBlock_reads_height_and_ts_witness :
  fetchLastBlock (answering 200 (json.Array [blockRecord 100 1700000000000]))
  = fetchLastBlock (answering 404 (json.Array
      [json.Object [("miner", json.Str "x"); ("height", jsonInt 100);
                    ("ts", jsonInt 1700000000000)];
       json.Null])).
Proof.
  eapply (fetchLastBlock_reads_height_and_ts
            (answering 200 (json.Array [blockRecord 100 1700000000000]))
            (answering 404 (json.Array
               [json.Object [("miner", json.Str "x"); ("height", jsonInt 100);
                             ("ts", jsonInt 1700000000000)];
                json.Null]))).
  - reflexivity.
  - reflexivity.
  - reflexivity.
  - reflexivity.
  - reflexivity.
  - reflexivity.
  - vm_compute. reflexivity.
  - vm_compute. reflexivity.
Defined.

(** ** More on the subscriber file *)

(** X16. An error of the listing never comes with identifiers: whatever
    goes wrong (a line that is no number, a line too long for the scanner,
    a read that fails), the list returned is empty. *)
Theorem getSubscribers_error_empty_list fsys path e :
  (getSubscribers fsys path).1.2 = Some e -> (getSubscribers fsys path).1.1 = [].
Proof.
  unfold getSubscribers. repeat case_match; simpl; intros He; reflexivity || discriminate.
Qed.

Lemma getSubscribers_error_empty_list_witness :
  (getSubscribers
     (oneFile "subs" (os.Present {| os.contents := "5
6
"; os.readErr := Some "input/output error" |})) "subs").1.1 = [].
Proof.
  apply (getSubscribers_error_empty_list _ _ (ReadError "input/output error")).
  reflexivity.
Defined.

(** X17. A read that fails is not passed over: when reading the
    subscriber file ends in an error, the listing returns an error and no
    identifier, even if every line read until then is a number. *)
Theorem getSubscribers_read_failure fsys path f msg :
  fsys path = os.Present f ->
  os.readErr f = Some msg ->
  exists e, getSubscribers fsys path = ([], Some e, [Open path]).
Proof.
  intros Hf Hr. unfold getSubscribers, os.Open, scanFile. rewrite Hf, Hr. cbv beta iota.
  destruct (bufio.scanPieces (bufio.pieces (os.contents f))) as [toks err].
  destruct (parseTokens [] toks) as [ids [e|]]; [eauto|].
  destruct err as [e|]; simpl; eauto.
Qed.

Lemma getSubscribers_read_failure_witness :
  exists e,
    getSubscribers
      (oneFile "subs" (os.Present {| os.contents := "5
6
"; os.readErr := Some "input/output error" |})) "subs"
    = ([], Some e, [Open "subs"]).
Proof.
  apply (getSubscribers_read_failure _ "subs"
           {| os.contents := "5
6
"; os.readErr := Some "input/output error" |} "input/output error").
  - reflexivity.
  - reflexivity.
Defined.

Lemma scanPieces_none_short ps :
  (bufio.scanPieces ps).2 = None -> Forall (fun p => bufio.tooLong p = false) ps.
Proof.
  induction ps as [|p ps IH]; simpl; [constructor|].
  destruct (bufio.tooLong p) eqn:Hp; [discriminate|].
  destruct ps as [|q ps]; [intros _; repeat constructor; exact Hp|].
  destruct (bufio.scanPieces (q :: ps)) as [toks err]. simpl in *.
  intros He. constructor; [exact Hp|apply (IH He)].
Qed.

(** The loop goes through exactly when every token is a decimal signed
    64-bit integer, and gathers the numbers they write. *)
Lemma parseTokens_values toks : forall acc ids,
  parseTokens acc toks = (ids, None)
  <-> exists new,
        ids = (acc ++ new)%list
        /\ Forall2 (fun t id => decimalInt64 t = Some id) toks new.
Proof.
  induction toks as [|t toks IH]; intros acc ids; simpl.
  - split.
    + intros [= <-]. exists []. rewrite app_nil_r. split; [reflexivity|constructor].
    + intros (new & -> & Hall). apply Forall2_nil_inv_l in Hall as ->.
      by rewrite app_nil_r.
  - pose proof (ParseInt_decimalInt64 t) as Ht.
    destruct (decimalInt64 t) as [z|] eqn:Hd.
    + rewrite Ht. rewrite IH. split.
      * intros (new & -> & Hall). exists (z :: new). rewrite <- app_assoc.
        split; [reflexivity|]. constructor; assumption.
      * intros (new & -> & Hall).
        apply Forall2_cons_inv_l in Hall as (id & new' & Hid & Hall & ->).
        rewrite Hd in Hid. injection Hid as <-.
        exists new'. rewrite <- app_assoc. done.
    + destruct (strconv.ParseInt t) as [id [e|]]; [|done].
      split; [discriminate|].
      intros (new & _ & Hall). apply Forall2_cons_inv_l in Hall as (id' & _ & Hid & _).
      rewrite Hd in Hid. discriminate.
Qed.

(** X18. The listing goes through exactly when reading the file does not
    fail, no line is 64 KiB long or longer, and every line (cut at the
    newlines, a carriage return before the newline left off) is a decimal
    signed 64-bit integer; what it returns then are the numbers the lines
    write, one per line, in the order of the file. *)
Theorem getSubscribers_lists_the_lines fsys path f ids :
  fsys path = os.Present f ->
  ((getSubscribers fsys path).1 = (ids, None)
   <-> os.readErr f = None
       /\ Forall (fun p => bufio.tooLong p = false) (bufio.pieces (os.contents f))
       /\ Forall2 (fun l id => decimalInt64 l = Some id) (fileLines (os.contents f)) ids).
Proof.
  intros Hf. split.
  - intros Hlist.
    destruct (getSubscribers fsys path) as [[ids' err] evs] eqn:Hg.
    simpl in Hlist. injection Hlist as -> ->.
    destruct (getSubscribers_success _ _ _ _ _ Hf Hg) as (toks & Hscan & Hread & Hparse).
    pose proof (scanPieces_none_short (bufio.pieces (os.contents f))) as Hshort.
    pose proof (scanPieces_complete (bufio.pieces (os.contents f))) as Hall.
    rewrite Hscan in Hshort, Hall. simpl in *.
    split; [exact Hread|]. split; [by apply Hshort|].
    apply parseTokens_values in Hparse as (new & -> & Hvals).
    unfold fileLines. rewrite <- (Hall eq_refl). exact Hvals.
  - intros (Hread & Hshort & Hvals).
    pose proof (scanPieces_short _ Hshort) as Herr.
    pose proof (scanPieces_complete _ Herr) as Hall.
    destruct (bufio.scanPieces (bufio.pieces (os.contents f))) as [toks err] eqn:Hscan.
    simpl in Herr, Hall. subst err.
    assert (Hparse : parseTokens [] toks = (ids, None)).
    { apply parseTokens_values. exists ids. split; [reflexivity|].
      rewrite Hall. exact Hvals. }
    rewrite (getSubscribers_present _ _ _ _ _ Hf Hscan Hread Hparse). reflexivity.
Qed.

Lemma getSubscribers_lists_the_lines_witness :
  (getSubscribers (oneFile "subs" (textFile "+5
-06")) "subs").1 = ([5; -6], None)
  <-> os.readErr {| os.contents := "+5
-06"; os.readErr := None |} = None
      /\ Forall (fun p => bufio.tooLong p = false) (bufio.pieces "+5
-06")
      /\ Forall2 (fun l id => decimalInt64 l = Some id) (fileLines "+5
-06") [5; -6].
Proof.
  apply (getSubscribers_lists_the_lines (oneFile "subs" (textFile "+5
-06")) "subs" {| os.contents := "+5
-06"; os.readErr := None |} [5; -6]).
  reflexivity.
Defined.

(** What a file that opens lists, it lists line by line. *)
Lemma getSubscribers_listed_lines fsys path f ids evs :
  fsys path = os.Present f ->
  getSubscribers fsys path = (ids, None, evs) ->
  Forall2 (fun l id => decimalInt64 l = Some id) (fileLines (os.contents f)) ids.
Proof.
  intros Hf Hg.
  destruct (getSubscribers_success _ _ _ _ _ Hf Hg) as (toks & Hscan & Hread & Hparse).
  pose proof (scanPieces_complete (bufio.pieces (os.contents f))) as Hall.
  rewrite Hscan in Hall. simpl in Hall.
  apply parseTokens_values in Hparse as (new & -> & Hvals).
  unfold fileLines. rewrite <- (Hall eq_refl). exact Hvals.
Qed.

(** X7. When a new block is fetched, the subscriber file opens and lists
    without error and every send succeeds, the step returns no error and
    has sent one message for each line of the file, in the order of the
    file (a chat listed twice is sent to twice), to the chat whose number
    the line writes and about the fetched block. *)
Theorem step_notifies_every_subscriber w path g b fetched f ids listed :
  fetchLastBlock (net w) = (b, None, fetched) ->
  isNewEvent g b = true ->
  fsys w path = os.Present f ->
  getSubscribers (fsys w) path = (ids, None, listed) ->
  (forall j id, ids !! j = Some id -> send w j (NewMessage id b) = None) ->
  let r := tryNotifyIfNewBlock w path g in
  r.1 = (acknowledge b g, None)
  /\ Forall2 (fun l msg => exists id, decimalInt64 l = Some id /\ msg = NewMessage id b)
             (fileLines (os.contents f)) (attempts r.2)
  /\ attempts r.2 = (fun id => NewMessage id b) <$> ids
  /\ failures r.2 = [].
Proof.
  intros Hf Hnew Hfile Hlist Hsend r. subst r.
  pose proof (fetchLastBlock_events (net w)) as Hev. rewrite Hf in Hev. simpl in Hev.
  subst fetched.
  pose proof (getSubscribers_listed_lines _ _ _ _ _ Hfile Hlist) as Hlines.
  destruct (getSubscribers_events (fsys w) path) as (logs & Hlogs & _ & Ha & _).
  rewrite Hlist in Hlogs. simpl in Hlogs. subst listed.
  unfold tryNotifyIfNewBlock. rewrite Hf, Hnew, Hlist.
  rewrite (notifyAll_all_sent (send w) b ids Hsend).
  split; [reflexivity|]. cbn [snd].
  assert (Hfl : failures logs = []).
  { pose proof Hlist as Hl. unfold getSubscribers in Hl.
    repeat case_match; simplify_eq; reflexivity. }
  assert (Hat : attempts ((Get blocksURL :: Assign b :: Open path :: logs)
                          ++ ((fun id => Send (NewMessage id b) None) <$> ids))%list
                = (fun id => NewMessage id b) <$> ids).
  { unfold attempts in *. simpl. rewrite omap_app, Ha. simpl. apply attempts_sent. }
  split; [|split].
  - simpl in Hat |- *. rewrite Hat. apply Forall2_fmap_r.
    eapply Forall2_impl; [exact Hlines|]. intros l id Hid.
    exists id. split; [exact Hid|reflexivity].
  - exact Hat.
  - unfold failures in *. simpl. rewrite omap_app, Hfl. simpl.
    apply failures_sent.
Qed.

Lemma step_notifies_every_subscriber_witness :
  let b := {| height := 100; ts := 1700000000000 |} in
  let r := tryNotifyIfNewBlock (tick 100 1700000000000) "subs" initial in
  r.1 = (acknowledge b initial, None)
  /\ Forall2 (fun l msg => exists id, decimalInt64 l = Some id /\ msg = NewMessage id b)
             (fileLines "5
6
") (attempts r.2)
  /\ attempts r.2 = (fun id => NewMessage id b) <$> [5; 6]
  /\ failures r.2 = [].
Proof.
  apply (step_notifies_every_subscriber (tick 100 1700000000000) "subs" initial
           {| height := 100; ts := 1700000000000 |} [Get blocksURL]
           {| os.contents := "5
6
"; os.readErr := None |} [5; 6] [Open "subs"]).
  - vm_compute. reflexivity.
  - vm_compute. reflexivity.
  - reflexivity.
  - vm_compute. reflexivity.
  - intros j id _. reflexivity.
Defined.

Lemma scanPieces_long ps :
  Exists (fun p => bufio.tooLong p = true) ps -> (bufio.scanPieces ps).2 = Some ErrTooLong.
Proof.
  intros Hex. destruct (bufio.scanPieces ps).2 as [e|] eqn:He.
  - by rewrite (scanPieces_error ps e He).
  - exfalso. apply scanPieces_none_short in He.
    apply Exists_exists in Hex as (p & Hin & Hp).
    rewrite Forall_forall in He. specialize (He p Hin). congruence.
Qed.

(** X19. A subscriber file with a line of 64 KiB or more is never listed:
    the listing returns an error and no identifier, even when the long
    line is itself a number (zeros before it, say) and whatever the other
    lines are. *)
Theorem getSubscribers_long_line fsys path f :
  fsys path = os.Present f ->
  existsb bufio.tooLong (bufio.pieces (os.contents f)) = true ->
  exists e, getSubscribers fsys path = ([], Some e, [Open path]).
Proof.
  intros Hf Hlong. unfold getSubscribers, os.Open, scanFile. rewrite Hf. cbv beta iota.
  assert (Hex : Exists (fun p => bufio.tooLong p = true) (bufio.pieces (os.contents f))).
  { apply existsb_exists in Hlong as (p & Hin & Hp).
    apply Exists_exists. exists p. split; [by apply list_elem_of_In|exact Hp]. }
  pose proof (scanPieces_long _ Hex) as Herr.
  destruct (bufio.scanPieces (bufio.pieces (os.contents f))) as [toks err].
  simpl in Herr. subst err.
  destruct (parseTokens [] toks) as [ids [e|]]; eauto.
Qed.

Lemma getSubscribers_long_line_witness :
  exists e,
    getSubscribers (oneFile "subs" (textFile ("7
" ++ zeros (Z.to_nat 65536) ++ "1
"))) "subs" = ([], Some e, [Open "subs"]).
Proof.
  apply (getSubscribers_long_line _ "subs"
           {| os.contents := "7
" ++ zeros (Z.to_nat 65536) ++ "1
"; os.readErr := None |}).
  - reflexivity.
  - vm_compute. reflexivity.
Defined.

(** ** More on the numbers in the file *)

(** X20. [ParseInt], as the listing calls it, returns a number without
    error exactly for the decimal signed 64-bit integers (an optional sign,
    then one digit or more, within -2^63 .. 2^63-1), and the number is the
    one written; so the empty line, a lone sign, a space, a letter, a
    number out of range make the listing fail. *)
Theorem ParseInt_accepts_decimalInt64 s z :
  strconv.ParseInt s = (z, None) <-> decimalInt64 s = Some z.
Proof.
  pose proof (ParseInt_decimalInt64 s) as Hs.
  destruct (decimalInt64 s) as [z'|].
  - rewrite Hs. split; intros [= ->]; reflexivity.
  - split; [|discriminate]. intros Hp. rewrite Hp in Hs. done.
Qed.

(** X21. Round trip of a chat ID through its text: what [FormatInt] writes
    for an int64, [ParseInt] reads back as that int64 and without error. *)
Theorem FormatInt_then_ParseInt z :
  minInt64 <= z <= maxInt64 -> strconv.ParseInt (itoa.FormatInt z) = (z, None).
Proof.
  intros Hz.
  pose proof (ParseInt_decimalInt64 (itoa.FormatInt z)) as Hparse.
  rewrite (decimalInt64_FormatInt z Hz) in Hparse.
  exact Hparse.
Qed.

Lemma FormatInt_then_ParseInt_witness :
  strconv.ParseInt (itoa.FormatInt minInt64) = (minInt64, None).
Proof. apply (FormatInt_then_ParseInt minInt64). vm_compute. split; discriminate. Defined.

(** A write that breaks off after two bytes leaves a line without its
    newline; the ID saved next is glued to it, and the file lists a number
    that no chat has. *)
Example broken_write_merges_lines :
  let fsys1 := (saveSubscriberID (fun _ => os.Absent) (oswrite.Broken 2 (EOther 28))
                                 123 "subs").1 in
  let fsys2 := (saveSubscriberID fsys1 oswrite.Complete 45 "subs").1 in
  getSubscribers fsys2 "subs" = ([1245], None, [Open "subs"]).
Proof. vm_compute. reflexivity. Qed.
